(** * VideoLens AI: the frame capture and sequential analysis pipeline

    A shallow embedding of [services/geminiService.ts] (the Analysis
    Client with its retry loop) and of the [App] component (capture loop,
    reconciliation effect, frame state machine, cancellation), followed by
    the properties of the pipeline.

    Conventions of the embedding.
    - JavaScript numbers are exact rationals extended with the special
      values [Infinity], [-Infinity] and [NaN]; rounding is not modelled
      (loop counters and intervals are integers, so they are exact).
    - The component is an event system: every handler runs to its next
      suspension point, React commits the batched state updates, and the
      reconciliation effect is re-run when one of its dependencies
      changed.  What the browser or the network decides (the duration of
      the video, the encoded image, the outcome of the model call) is a
      parameter of the event.
    - [crypto.randomUUID()] is a counter: identifiers are fresh. *)

From Stdlib Require Import ZArith QArith Qround String Ascii Lia Bool.
From Stdlib Require Import DecimalString DecimalZ DecimalPos.
From stdpp Require Import base list option.

Local Open Scope Z_scope.

(** ** JavaScript numbers *)

Module JS.

Inductive number : Type :=
| Num (q : Q)
| PosInf
| NegInf
| NaN.

Definition ofZ (z : Z) : number := Num (inject_Z z).

(** [a / b]; a zero divisor gives an infinity of the sign of [a], or
    [NaN] for [0 / 0]. *)
Definition div (a b : number) : number :=
  match a, b with
  | Num x, Num y =>
      if Qeq_bool y 0 then
        (if Qeq_bool x 0 then NaN
         else if Qle_bool 0 x then PosInf else NegInf)
      else Num (x / y)
  | Num _, (PosInf | NegInf) => Num 0
  | PosInf, Num y => if Qle_bool 0 y then PosInf else NegInf
  | NegInf, Num y => if Qle_bool 0 y then NegInf else PosInf
  | _, _ => NaN
  end.

Definition mul (a b : number) : number :=
  match a, b with
  | Num x, Num y => Num (x * y)
  | NaN, _ | _, NaN => NaN
  | Num x, PosInf | PosInf, Num x =>
      if Qeq_bool x 0 then NaN else if Qle_bool 0 x then PosInf else NegInf
  | Num x, NegInf | NegInf, Num x =>
      if Qeq_bool x 0 then NaN else if Qle_bool 0 x then NegInf else PosInf
  | PosInf, PosInf | NegInf, NegInf => PosInf
  | PosInf, NegInf | NegInf, PosInf => NegInf
  end.

Definition add (a b : number) : number :=
  match a, b with
  | Num x, Num y => Num (x + y)
  | NaN, _ | _, NaN => NaN
  | PosInf, NegInf | NegInf, PosInf => NaN
  | PosInf, _ | _, PosInf => PosInf
  | NegInf, _ | _, NegInf => NegInf
  end.

(** [Math.floor] *)
Definition floor (a : number) : number :=
  match a with
  | Num x => Num (inject_Z (Qfloor x))
  | other => other
  end.

(** [a < b]; every comparison with [NaN] is false. *)
Definition lt (a b : number) : bool :=
  match a, b with
  | Num x, Num y => negb (Qle_bool y x)
  | Num _, PosInf | NegInf, Num _ | NegInf, PosInf => true
  | _, _ => false
  end.

(** [a === b] on numbers *)
Definition eqb (a b : number) : bool :=
  match a, b with
  | Num x, Num y => Qeq_bool x y
  | PosInf, PosInf | NegInf, NegInf => true
  | _, _ => false
  end.

(** [a || d] on an optional string: [undefined] and the empty string
    are falsy. *)
Definition orElse (a : option string) (d : string) : string :=
  match a with
  | Some EmptyString | None => d
  | Some s => s
  end.

(** [hay.includes(needle)] *)
Fixpoint includes (hay needle : string) : bool :=
  String.prefix needle hay
  || match hay with
     | EmptyString => false
     | String _ rest => includes rest needle
     end.

End JS.

(** ** services/geminiService.ts *)

Module GeminiService.

(** What the handler of [catch (error: any)] observes of the thrown
    value. *)
Record JsError : Type := mkError {
  message : option string;
  status : option Z;
  toString : string
}.

(** The outcome of one [ai.models.generateContent] call. *)
Inductive Outcome : Type :=
| Response (text : option string)
| Throws (error : JsError).

(** The request built on each attempt: the declared image subtype, the
    payload without its data-URL prefix, and the extra requirement that
    the instruction template carries when [instructions] is truthy. *)
Record Request : Type := mkRequest {
  mimeType : string;
  data : string;
  extra : option string
}.

Inductive PromptResult : Type :=
| Resolved (prompt : string)
| Rejected (msg : string).

(** The result of a whole call, with the [delay]s it awaited (in
    milliseconds, in order) and the number of external calls made. *)
Record Run : Type := mkRun {
  result : PromptResult;
  waits : list Z;
  calls : nat
}.

Definition maxRetries : Z := 3.

Definition placeholder : string := "无法生成描述"%string.
Definition fallbackMessage : string :=
  "AI 分析失败，请检查 API Key 或网络连接。"%string.

(** [/^data:image\/(png|jpeg|jpg|webp);base64,/]: the subtype matched
    and the rest of the string. *)
Definition subtypes : list string :=
  ["png"; "jpeg"; "jpg"; "webp"]%string.

Fixpoint dropChars (n : nat) (s : string) : string :=
  match n, s with
  | S k, String _ rest => dropChars k rest
  | _, _ => s
  end.

Fixpoint matchDataUrl (alts : list string) (s : string)
  : option (string * string) :=
  match alts with
  | [] => None
  | t :: more =>
      let p := ("data:image/" ++ t ++ ";base64,")%string in
      if String.prefix p s then Some (t, dropChars (String.length p) s)
      else matchDataUrl more s
  end.

Definition buildRequest (base64Image : string) (instructions : option string)
  : Request :=
  let m := matchDataUrl subtypes base64Image in
  {| mimeType := ("image/" ++ from_option fst "jpeg" m)%string;
     data := from_option snd base64Image m;
     extra := match instructions with
              | Some EmptyString | None => None
              | Some i => Some i
              end |}.

(** [error.message?.includes('429') || error.status === 429 ||
    error.toString().includes('429')] *)
Definition isRateLimit (e : JsError) : bool :=
  from_option (fun m => JS.includes m "429"%string) false (message e)
  || from_option (Z.eqb 429) false (status e)
  || JS.includes (toString e) "429"%string.

(** The [while (true)] loop.  [n] counts the external calls already
    made, [ws] the delays already awaited; the loop runs out of [fuel]
    only if it iterates more than [fuel] times. *)
Fixpoint attempt (fuel : nat) (call : nat -> Request -> Outcome)
    (req : Request) (retries : Z) (n : nat) (ws : list Z) : option Run :=
  match fuel with
  | O => None
  | S fuel' =>
      match call n req with
      | Response text =>
          Some {| result := Resolved (JS.orElse text placeholder);
                  waits := ws; calls := S n |}
      | Throws error =>
          if isRateLimit error && (retries <? maxRetries) then
            let retries := retries + 1 in
            let waitTime := 2 ^ retries * 1000 in
            attempt fuel' call req retries (S n) (ws ++ [waitTime])
          else
            Some {| result :=
                      Rejected (JS.orElse (message error) fallbackMessage);
                    waits := ws; calls := S n |}
      end
  end.

Definition generateImagePrompt (fuel : nat)
    (call : nat -> Request -> Outcome)
    (base64Image : string) (instructions : option string) : option Run :=
  attempt fuel call (buildRequest base64Image instructions) 0 0%nat [].

End GeminiService.

(** ** types.ts and the App component *)

Module App.

Import GeminiService (PromptResult, Resolved, Rejected).

Inductive ProcessingStatus : Type :=
| PENDING
| ANALYZING
| COMPLETED
| ERROR.

Record VideoFrame : Type := mkFrame {
  id : nat;
  timestamp : Z;
  imageUrl : string;
  prompt : option string;
  status : ProcessingStatus;
  errorMessage : option string
}.

Record AnalysisConfig : Type := mkConfig {
  interval : Z;
  customInstructions : string
}.

(** A suspended invocation of [startAnalysis]: waiting for
    [loadedmetadata], or inside the capture loop waiting for [seeked]
    with the loop's locals, or returned.  [signal] is the address of the
    [AbortController] the invocation created. *)
Inductive CaptureTask : Type :=
| AwaitMetadata (signal : nat) (cfg : AnalysisConfig)
| AwaitSeeked (signal : nat) (duration : JS.number) (interval : Z)
    (totalFrames : JS.number) (capturedCount : Z) (time : Z)
| Finished.

(** The component: its React state, the [AbortController]s allocated so
    far (their [aborted] flags) with the ref that points at the current
    one, and what is suspended: the timer of the reconciliation effect
    (with the frame its callback closes over), the capture tasks, and
    the identifiers of the frames whose [generateImagePrompt] call is
    awaited by [processFrame]. *)
Record State : Type := mkState {
  videoFile : option string;
  videoSrc : option string;
  frames : list VideoFrame;
  isProcessing : bool;
  progress : JS.number;
  config : AnalysisConfig;
  controllers : list bool;
  abortControllerRef : option nat;
  timer : option VideoFrame;
  captures : list CaptureTask;
  inflight : list nat;
  nextId : nat
}.

Definition init : State :=
  {| videoFile := None; videoSrc := None; frames := [];
     isProcessing := false; progress := JS.ofZ 0;
     config := {| interval := 3; customInstructions := EmptyString |};
     controllers := []; abortControllerRef := None; timer := None;
     captures := []; inflight := []; nextId := 0%nat |}.

(** *** Field updates *)

Definition setVideo (file src : option string) (s : State) : State :=
  mkState file src (frames s) (isProcessing s) (progress s) (config s)
    (controllers s) (abortControllerRef s) (timer s) (captures s)
    (inflight s) (nextId s).

Definition setFrames (fs : list VideoFrame) (s : State) : State :=
  mkState (videoFile s) (videoSrc s) fs (isProcessing s) (progress s)
    (config s) (controllers s) (abortControllerRef s) (timer s)
    (captures s) (inflight s) (nextId s).

Definition setIsProcessing (b : bool) (s : State) : State :=
  mkState (videoFile s) (videoSrc s) (frames s) b (progress s) (config s)
    (controllers s) (abortControllerRef s) (timer s) (captures s)
    (inflight s) (nextId s).

Definition setProgress (p : JS.number) (s : State) : State :=
  mkState (videoFile s) (videoSrc s) (frames s) (isProcessing s) p
    (config s) (controllers s) (abortControllerRef s) (timer s)
    (captures s) (inflight s) (nextId s).

Definition setConfig (c : AnalysisConfig) (s : State) : State :=
  mkState (videoFile s) (videoSrc s) (frames s) (isProcessing s)
    (progress s) c (controllers s) (abortControllerRef s) (timer s)
    (captures s) (inflight s) (nextId s).

Definition setControllers (cs : list bool) (r : option nat) (s : State)
  : State :=
  mkState (videoFile s) (videoSrc s) (frames s) (isProcessing s)
    (progress s) (config s) cs r (timer s) (captures s) (inflight s)
    (nextId s).

Definition setTimer (t : option VideoFrame) (s : State) : State :=
  mkState (videoFile s) (videoSrc s) (frames s) (isProcessing s)
    (progress s) (config s) (controllers s) (abortControllerRef s) t
    (captures s) (inflight s) (nextId s).

Definition setCaptures (cs : list CaptureTask) (s : State) : State :=
  mkState (videoFile s) (videoSrc s) (frames s) (isProcessing s)
    (progress s) (config s) (controllers s) (abortControllerRef s)
    (timer s) cs (inflight s) (nextId s).

Definition setInflight (l : list nat) (s : State) : State :=
  mkState (videoFile s) (videoSrc s) (frames s) (isProcessing s)
    (progress s) (config s) (controllers s) (abortControllerRef s)
    (timer s) (captures s) l (nextId s).

Definition setNextId (n : nat) (s : State) : State :=
  mkState (videoFile s) (videoSrc s) (frames s) (isProcessing s)
    (progress s) (config s) (controllers s) (abortControllerRef s)
    (timer s) (captures s) (inflight s) n.

(** *** Statuses *)

Definition status_eqb (a b : ProcessingStatus) : bool :=
  match a, b with
  | PENDING, PENDING | ANALYZING, ANALYZING
  | COMPLETED, COMPLETED | ERROR, ERROR => true
  | _, _ => false
  end.

Definition isPending (f : VideoFrame) : bool := status_eqb (status f) PENDING.
Definition isAnalyzing (f : VideoFrame) : bool :=
  status_eqb (status f) ANALYZING.
(** [f.status === COMPLETED || f.status === ERROR] *)
Definition isDone (f : VideoFrame) : bool :=
  status_eqb (status f) COMPLETED || status_eqb (status f) ERROR.

(** *** Cancellation *)

(** [c.signal.aborted] for the controller at address [c] *)
Definition aborted (c : nat) (s : State) : bool :=
  default false (controllers s !! c).

(** [abortControllerRef.current?.signal.aborted], [undefined] being
    falsy *)
Definition currentAborted (s : State) : bool :=
  from_option (fun c => aborted c s) false (abortControllerRef s).

(** [if (abortControllerRef.current) abortControllerRef.current.abort()] *)
Definition abortCurrent (s : State) : State :=
  match abortControllerRef s with
  | Some c => setControllers (<[c := true]> (controllers s)) (Some c) s
  | None => s
  end.

(** *** The reconciliation effect *)

(** The body of the effect, on the committed state.  The branch that
    finds every frame done also commits [isProcessing = false], on which
    the effect runs once more and returns at its first line. *)
Definition reconcile (s : State) : State :=
  if negb (isProcessing s) then s
  else if currentAborted s then s
  else if existsb isAnalyzing (frames s) then s
  else
    match find isPending (frames s) with
    | Some pendingFrame => setTimer (Some pendingFrame) s
    | None =>
        let allCompleted :=
          (0 <? length (frames s))%nat && forallb isDone (frames s) in
        if allCompleted then
          setProgress (JS.ofZ 100) (setIsProcessing false s)
        else if (0 <? length (frames s))%nat then
          let completedCount :=
            Z.of_nat (length (List.filter isDone (frames s))) in
          let total := Z.of_nat (length (frames s)) in
          setProgress
            (JS.add (JS.ofZ 50)
               (JS.mul (JS.div (JS.ofZ completedCount) (JS.ofZ total))
                  (JS.ofZ 50))) s
        else s
    end.

(** A commit on which [frames], [isProcessing] or [processFrame]
    changed: the cleanup of the previous run of the effect clears its
    timer, then the effect runs. *)
Definition commit (s : State) : State := reconcile (setTimer None s).

(** *** Handlers *)

Definition handleFileSelected (file url : string) (s : State) : State :=
  commit
    (setIsProcessing false
       (setProgress (JS.ofZ 0)
          (setFrames [] (setVideo (Some file) (Some url) s)))).

Definition reset (s : State) : State :=
  commit
    (abortCurrent
       (setIsProcessing false
          (setProgress (JS.ofZ 0) (setFrames [] (setVideo None None s))))).

(** [prev.map(f => f.id === frame.id ? g(f) : f)] *)
Definition updateFrame (fid : nat) (g : VideoFrame -> VideoFrame)
    (fs : list VideoFrame) : list VideoFrame :=
  (fun f => if (id f =? fid)%nat then g f else f) <$> fs.

Definition markAnalyzing (f : VideoFrame) : VideoFrame :=
  mkFrame (id f) (timestamp f) (imageUrl f) (prompt f) ANALYZING
    (errorMessage f).

Definition markCompleted (p : string) (f : VideoFrame) : VideoFrame :=
  mkFrame (id f) (timestamp f) (imageUrl f) (Some p) COMPLETED
    (errorMessage f).

Definition markError (m : string) (f : VideoFrame) : VideoFrame :=
  mkFrame (id f) (timestamp f) (imageUrl f) (prompt f) ERROR (Some m).

(** [processFrame] up to its [await]: the frame becomes ANALYZING and
    the call is in flight. *)
Definition processFrameBegin (frame : VideoFrame) (s : State) : State :=
  commit
    (setInflight (inflight s ++ [id frame])
       (setFrames (updateFrame (id frame) markAnalyzing (frames s)) s)).

Fixpoint removeFirst (x : nat) (l : list nat) : list nat :=
  match l with
  | [] => []
  | y :: l' => if (y =? x)%nat then l' else y :: removeFirst x l'
  end.

Definition applyResult (r : PromptResult) : VideoFrame -> VideoFrame :=
  match r with
  | Resolved p => markCompleted p
  | Rejected m => markError m
  end.

(** [processFrame] from its [await] on: the [try] continues with the
    prompt, or the [catch] runs with the error. *)
Definition processFrameSettle (fid : nat) (r : PromptResult) (s : State)
  : State :=
  commit
    (setInflight (removeFirst fid (inflight s))
       (setFrames (updateFrame fid (applyResult r) (frames s)) s)).

(** The callback of the effect's [setTimeout]. *)
Definition timerFired (s : State) : State :=
  match timer s with
  | Some pendingFrame => processFrameBegin pendingFrame (setTimer None s)
  | None => s
  end.

(** The head of the capture loop for the next [time]: the loop
    condition, then [if (signal.aborted) break], then the seek. *)
Definition loopHead (signal : nat) (duration : JS.number) (interval : Z)
    (totalFrames : JS.number) (capturedCount time : Z) (s : State)
  : CaptureTask :=
  if JS.lt (JS.ofZ time) duration then
    if aborted signal s then Finished
    else AwaitSeeked signal duration interval totalFrames capturedCount time
  else Finished.

(** [startAnalysis] up to [await ...onloadedmetadata]; [ctx] tells
    whether [canvas.getContext] returned a context. *)
Definition startAnalysis (ctx : bool) (s : State) : State :=
  match videoSrc s with
  | None => s
  | Some _ =>
      let c := length (controllers s) in
      let s1 :=
        setControllers (controllers s ++ [false]) (Some c)
          (setProgress (JS.ofZ 0)
             (setFrames [] (setIsProcessing true s))) in
      commit
        (if ctx then
           setCaptures (captures s ++ [AwaitMetadata c (config s)]) s1
         else s1)
  end.

(** [startAnalysis] from [loadedmetadata] to the first seek. *)
Definition metadataLoaded (task : nat) (videoDuration : JS.number)
    (s : State) : State :=
  match captures s !! task with
  | Some (AwaitMetadata signal cfg) =>
      let duration := videoDuration in
      let interval := Z.max 1 (interval cfg) in
      let totalFrames := JS.floor (JS.div duration (JS.ofZ interval)) in
      let capturedCount := 0 in
      setCaptures
        (<[task := loopHead signal duration interval totalFrames
                     capturedCount 0 s]> (captures s)) s
  | _ => s
  end.

(** One iteration of the capture loop from [seeked] to the next seek:
    the frame drawn is appended, the progress of the first half is set,
    and the loop head runs for [time + interval]. *)
Definition seeked (task : nat) (dataUrl : string) (s : State) : State :=
  match captures s !! task with
  | Some (AwaitSeeked signal duration interval totalFrames capturedCount
            time) =>
      let newFrame :=
        {| id := nextId s; timestamp := time; imageUrl := dataUrl;
           prompt := None; status := PENDING; errorMessage := None |} in
      let capturedCount := capturedCount + 1 in
      let s1 :=
        setProgress
          (JS.mul (JS.div (JS.ofZ capturedCount) totalFrames) (JS.ofZ 50))
          (setNextId (S (nextId s))
             (setFrames (frames s ++ [newFrame]) s)) in
      commit
        (setCaptures
           (<[task := loopHead signal duration interval totalFrames
                        capturedCount (time + interval) s1]> (captures s1))
           s1)
  | _ => s
  end.

Definition stopAnalysis (s : State) : State :=
  let s1 := setIsProcessing false (abortCurrent s) in
  if isProcessing s then commit s1 else s1.

(** [setConfig({...config, interval: parseInt(e.target.value) || 3})];
    [parsed] is [None] when [parseInt] gives [NaN]. *)
Definition changeInterval (parsed : option Z) (s : State) : State :=
  let v := match parsed with
           | Some 0 | None => 3
           | Some n => n
           end in
  setConfig {| interval := v;
               customInstructions := customInstructions (config s) |} s.

(** *** Events *)

Inductive Event : Type :=
| FileSelected (file url : string)
| ClickReset
| ClickStart (ctx : bool)
| ClickStop
| ChangeInterval (parsed : option Z)
| MetadataLoaded (task : nat) (duration : JS.number)
| Seeked (task : nat) (dataUrl : string)
| TimerFired
| AnalysisSettled (frameId : nat) (r : PromptResult).

(** When the event can happen: the uploader is rendered only without a
    file, the start, reset and interval controls are usable only while
    not processing, the stop button replaces the start button while
    processing; a suspension resumes only if it exists. *)
Definition enabled (e : Event) (s : State) : bool :=
  match e with
  | FileSelected _ _ => negb (bool_decide (is_Some (videoFile s)))
  | ClickReset | ClickStart _ | ChangeInterval _ =>
      bool_decide (is_Some (videoFile s)) && negb (isProcessing s)
  | ClickStop => bool_decide (is_Some (videoFile s)) && isProcessing s
  | MetadataLoaded task _ =>
      match captures s !! task with
      | Some (AwaitMetadata _ _) => true
      | _ => false
      end
  | Seeked task _ =>
      match captures s !! task with
      | Some (AwaitSeeked _ _ _ _ _ _) => true
      | _ => false
      end
  | TimerFired => bool_decide (is_Some (timer s))
  | AnalysisSettled fid _ => existsb (Nat.eqb fid) (inflight s)
  end.

Definition handle (e : Event) (s : State) : State :=
  match e with
  | FileSelected file url => handleFileSelected file url s
  | ClickReset => reset s
  | ClickStart ctx => startAnalysis ctx s
  | ClickStop => stopAnalysis s
  | ChangeInterval parsed => changeInterval parsed s
  | MetadataLoaded task d => metadataLoaded task d s
  | Seeked task url => seeked task url s
  | TimerFired => timerFired s
  | AnalysisSettled fid r => processFrameSettle fid r s
  end.

Definition step (e : Event) (s : State) : option State :=
  if enabled e s then Some (handle e s) else None.

Fixpoint run (trace : list Event) (s : State) : option State :=
  match trace with
  | [] => Some s
  | e :: rest =>
      match step e s with
      | Some s' => run rest s'
      | None => None
      end
  end.

Definition reachable (s : State) : Prop :=
  exists trace, run trace init = Some s.

(** The capture loop of [task] run to its end with nothing else
    happening in between; [shot time] is the image encoded at [time].
    The loop is out of [fuel] only if it iterates more than [fuel]
    times. *)
Fixpoint runCapture (fuel : nat) (task : nat) (shot : Z -> string)
    (s : State) : option State :=
  match captures s !! task with
  | Some (AwaitSeeked _ _ _ _ _ time) =>
      match fuel with
      | O => None
      | S fuel' => runCapture fuel' task shot (seeked task (shot time) s)
      end
  | _ => Some s
  end.

End App.

(** ** The vocabulary of the properties *)

Section Vocabulary.

Import App.

(** The delays of the backoff, in milliseconds. *)
Definition backoff : list Z := [2000; 4000; 8000].

(** The external call fails with a rate-limit error at every attempt
    before the [k]-th. *)
Definition rateLimitedBefore
    (call : nat -> GeminiService.Request -> GeminiService.Outcome)
    (req : GeminiService.Request) (k : nat) : Prop :=
  forall j, (j < k)%nat ->
    exists e, call j req = GeminiService.Throws e
              /\ GeminiService.isRateLimit e = true.

(** What holds of the frame list, the calls in flight and the abort
    controllers whatever the effect did last. *)
Record Core (s : State) : Prop := mkCore {
  core_ids_nodup : NoDup (id <$> frames s);
  core_ids_fresh : forall f, f ∈ frames s -> (id f < nextId s)%nat;
  core_inflight_fresh : forall i, i ∈ inflight s -> (i < nextId s)%nat;
  core_inflight_nodup : NoDup (inflight s);
  core_inflight_analyzing :
    forall f, f ∈ frames s -> id f ∈ inflight s -> status f = ANALYZING;
  core_one_analyzing :
    forall f g, f ∈ frames s -> g ∈ frames s ->
      status f = ANALYZING -> status g = ANALYZING -> id f = id g;
  core_ref :
    isProcessing s = true ->
    exists c, abortControllerRef s = Some c
              /\ (c < length (controllers s))%nat
}.

(** The pending timer was set by the last run of the effect, on the
    current frame list. *)
Definition TimerOk (s : State) : Prop :=
  forall f, timer s = Some f ->
    find isPending (frames s) = Some f
    /\ existsb isAnalyzing (frames s) = false
    /\ isProcessing s = true
    /\ currentAborted s = false.

Definition Inv (s : State) : Prop := Core s /\ TimerOk s.

(** What an event does to the frame list. *)
Inductive FrameChange (s : State) : Event -> list VideoFrame -> Prop :=
| change_emptied e : FrameChange s e []
| change_none e : FrameChange s e (frames s)
| change_appended e t url :
    FrameChange s e
      (frames s ++ [mkFrame (nextId s) t url None PENDING None])
| change_started e tf :
    timer s = Some tf ->
    FrameChange s e (updateFrame (id tf) markAnalyzing (frames s))
| change_settled fid r :
    FrameChange s (AnalysisSettled fid r)
      (updateFrame fid (applyResult r) (frames s)).

(** The statuses a frame may move between in one step: it stays, or it
    follows an edge of PENDING -> ANALYZING -> {COMPLETED | ERROR}. *)
Inductive advances : ProcessingStatus -> ProcessingStatus -> Prop :=
| advances_stay a : advances a a
| advances_start : advances PENDING ANALYZING
| advances_complete : advances ANALYZING COMPLETED
| advances_fail : advances ANALYZING ERROR.

(** The frames a capture loop appends from [time] on. *)
Definition shots (shot : Z -> string) (first : nat) (time i : Z) (n : nat)
  : list VideoFrame :=
  (fun k : nat =>
     let t := (time + Z.of_nat k * i)%Z in
     mkFrame (first + k) t (shot t) None PENDING None) <$> seq 0 n.

(** The number of frames the specification expects: the floor of
    [D / interval], or 1 if that is 0. *)
Definition specFrameCount (D : Q) (i : Z) : Z :=
  let n := Qfloor (D / inject_Z i) in
  if (n =? 0)%Z then 1%Z else n.

(** *** Example runs *)

(** An external call that is rate limited twice and then describes the
    image. *)
Definition rateLimitError : GeminiService.JsError :=
  GeminiService.mkError (Some "429 Too Many Requests"%string) (Some 429)
    "Error: 429 Too Many Requests"%string.

Definition callTwiceLimited (n : nat) (_ : GeminiService.Request)
  : GeminiService.Outcome :=
  if (n <? 2)%nat then GeminiService.Throws rateLimitError
  else GeminiService.Response (Some "a harbour at dusk"%string).

(** A clip is selected; the interval keeps its default of 3 seconds. *)
Definition clipSelected : list Event :=
  [FileSelected "clip.mp4" "blob:clip"].

(** A ten-second clip is being captured: two frames are in the list and
    the effect has scheduled the first. *)
Definition twoCaptured : list Event :=
  clipSelected
  ++ [ClickStart true; MetadataLoaded 0 (JS.Num 10);
      Seeked 0 "frame@0"; Seeked 0 "frame@3"].

(** ... and the timer fired: the first frame is being analyzed. *)
Definition firstAnalyzing : list Event := twoCaptured ++ [TimerFired].

(** ... and the user clicked stop while the call was in flight. *)
Definition stoppedInFlight : list Event := firstAnalyzing ++ [ClickStop].

(** A clip of 1.5 seconds sampled every second, captured to its end. *)
Definition shortClipCaptured : list Event :=
  clipSelected
  ++ [ChangeInterval (Some 1); ClickStart true;
      MetadataLoaded 0 (JS.Num (3 # 2));
      Seeked 0 "frame@0"; Seeked 0 "frame@1"].

(** A clip of 3 seconds sampled every second whose first frame is
    analyzed before the second seek completes. *)
Definition analysisOvertakesCapture : list Event :=
  clipSelected
  ++ [ChangeInterval (Some 1); ClickStart true;
      MetadataLoaded 0 (JS.Num 3); Seeked 0 "frame@0";
      TimerFired;
      AnalysisSettled 0 (GeminiService.Resolved "a harbour at dusk")].

(** ... after which the user starts again, stops, clears the file and is
      back at the uploader, while the first capture loop, whose controller
      is no longer the current one, still waits for its second seek. *)
Definition staleCapture : list Event :=
    analysisOvertakesCapture ++ [ClickStart true; ClickStop; ClickReset].

(** The state a run of events from [init] ends in. *)
Definition after (trace : list Event) : State :=
  default init (run trace init).

End Vocabulary.

(** ** The drawing of a frame and the frame card *)

Module Canvas.




End Canvas.

Module FrameCard.

(** [n.toString()] for an integer. *)
Definition toString (n : Z) : string := NilZero.string_of_int (Z.to_int n).

Fixpoint repeat (c : ascii) (n : nat) : string :=
  match n with
  | O => EmptyString
  | S k => String c (repeat c k)
  end.

(** [s.padStart(targetLength, c)] for a one-character pad. *)
Definition padStart (targetLength : nat) (c : ascii) (s : string) : string :=
  (repeat c (targetLength - String.length s) ++ s)%string.

(** [formatTime] on a whole number of seconds: [Math.floor(seconds / 60)]
    is the floored quotient and [seconds % 60] keeps the sign of
    [seconds]. *)
Definition formatTime (seconds : Z) : string :=
  let mins := seconds / 60 in
  let secs := Z.rem seconds 60 in
  (toString mins ++ ":" ++ padStart 2 "0" (toString secs))%string.

End FrameCard.

Section WellFormed.

Import App.

(** The fields of a frame that go with its status. *)
Definition fieldsMatch (f : VideoFrame) : Prop :=
  match status f with
  | PENDING | ANALYZING => prompt f = None /\ errorMessage f = None
  | COMPLETED => is_Some (prompt f) /\ errorMessage f = None
  | ERROR => prompt f = None /\ is_Some (errorMessage f)
  end.

(** The locals of a capture loop that waits for its seek. *)
Definition taskOk (t : CaptureTask) : Prop :=
  match t with
  | AwaitSeeked _ d i total cnt time =>
      1 <= i /\ 0 <= cnt /\ time = cnt * i
      /\ JS.lt (JS.ofZ time) d = true
      /\ total = JS.floor (JS.div d (JS.ofZ i))
  | _ => True
  end.

(** A progress that is a number and not negative. *)
Definition progressOk (p : JS.number) : Prop :=
  match p with
  | JS.Num q => (0 <= q)%Q
  | JS.PosInf => True
  | _ => False
  end.

(** What holds of a state before the effect has run on it. *)
Record PreShape (s : State) : Prop := mkPreShape {
  shape_fields : forall f, f ∈ frames s -> fieldsMatch f;
  shape_timestamp : forall f, f ∈ frames s -> 0 <= timestamp f;
  shape_analyzing_inflight :
    forall f, f ∈ frames s -> status f = ANALYZING -> id f ∈ inflight s;
  shape_video : is_Some (videoFile s) <-> is_Some (videoSrc s);
  shape_live :
    isProcessing s = true ->
    currentAborted s = false /\ is_Some (videoFile s);
  shape_interval : interval (config s) <> 0;
  shape_tasks : forall k t, captures s !! k = Some t -> taskOk t;
  shape_progress : progressOk (progress s)
}.

(** The effect has run: a PENDING frame that can be scheduled is. *)
Definition Scheduled (s : State) : Prop :=
  isProcessing s = true -> existsb isAnalyzing (frames s) = false ->
  forall g, find isPending (frames s) = Some g -> timer s = Some g.

Definition Shape (s : State) : Prop := PreShape s /\ Scheduled s.

(** The value of the two digits of a seconds field. *)
Definition digit (n : Z) : ascii := ascii_of_nat (48 + Z.to_nat n).

Definition twoDigits (n : Z) : string :=
  String (digit (n / 10)) (String (digit (n mod 10)) EmptyString).

(** A clip of 3 seconds sampled every second: its first frame is being
    analyzed and the second seek has not completed. *)
Definition singleFrameAnalyzing : list Event :=
  clipSelected
  ++ [ChangeInterval (Some 1); ClickStart true;
      MetadataLoaded 0 (JS.Num 3); Seeked 0 "frame@0"; TimerFired].

(** The run is stopped while the call of the first frame is in flight,
    and started again. *)
Definition restarted : list Event := stoppedInFlight ++ [ClickStart true].

(** The prefix of a data URL of subtype [t]. *)
Definition dataUrlPrefix (t : string) : string :=
  ("data:image/" ++ t ++ ";base64,")%string.

(** [hay] mentions [needle]. *)
Definition mentions (hay needle : string) : Prop :=
  exists pre post, hay = (pre ++ needle ++ post)%string.

End WellFormed.

(** * Properties *)

(** ** The Analysis Client *)

Section AnalysisClient.

Import GeminiService.

Variable call : nat -> Request -> Outcome.
Variable req : Request.

Lemma attempt_more_fuel fuel d retries n ws r :
  attempt fuel call req retries n ws = Some r ->
  attempt (fuel + d) call req retries n ws = Some r.
Proof.
  revert retries n ws.
  induction fuel as [|fuel IH]; intros retries n ws; [discriminate|].
  cbn [attempt Nat.add].
  destruct (call n req) as [text|e]; [done|].
  destruct (isRateLimit e && (retries <? maxRetries)); [apply IH | done].
Qed.

Lemma backoff_next j :
  (j < 3)%nat ->
  take j backoff ++ [2 ^ (Z.of_nat j + 1) * 1000] = take (S j) backoff.
Proof.
  intros Hj.
  destruct j as [|[|[|j]]]; [reflexivity | reflexivity | reflexivity | lia].
Qed.

(** From the [j]-th attempt on (so after [j] retries), the loop ends
    within [4 - j] iterations, at some attempt [k <= 3]. *)
Lemma attempt_ends fuel j :
  (j <= 3)%nat -> (4 <= fuel + j)%nat ->
  exists r k,
    attempt fuel call req (Z.of_nat j) j (take j backoff) = Some r
    /\ (j <= k <= 3)%nat
    /\ waits r = take k backoff /\ calls r = S k.
Proof.
  revert j.
  induction fuel as [|fuel IH]; intros j Hj Hfuel; [lia|].
  cbn [attempt].
  destruct (call j req) as [text|e].
  - eexists _, j. repeat split; [lia | lia].
  - destruct (isRateLimit e); cbn [andb].
    + destruct (Z.ltb_spec (Z.of_nat j) maxRetries) as [Hlt|Hge].
      * unfold maxRetries in Hlt.
        rewrite backoff_next by lia.
        replace (Z.of_nat j + 1) with (Z.of_nat (S j)) by lia.
        destruct (IH (S j)) as (r & k & Hr & Hk & Hw & Hc); [lia | lia |].
        exists r, k. repeat split; [done | lia | lia | done | done].
      * eexists _, j. repeat split; [lia | lia].
    + eexists _, j. repeat split; [lia | lia].
Qed.

(** If every attempt before the [k]-th was rate limited, the loop
    reaches the [k]-th attempt having waited the first [k] delays. *)
Lemma attempt_reaches fuel k :
  (k <= 3)%nat -> rateLimitedBefore call req k ->
  attempt (k + fuel) call req 0 0%nat [] =
  attempt fuel call req (Z.of_nat k) k (take k backoff).
Proof.
  intros Hk Hrl. revert fuel.
  induction k as [|k IH]; intros fuel; [reflexivity|].
  replace (S k + fuel)%nat with (k + S fuel)%nat by lia.
  rewrite IH; [| lia | intros j Hj; apply Hrl; lia].
  destruct (Hrl k) as (e & He & Hrate); [lia|].
  cbn [attempt]. rewrite He, Hrate. cbn [andb].
  destruct (Z.ltb_spec (Z.of_nat k) maxRetries) as [_|Hge];
    [| unfold maxRetries in Hge; lia].
  rewrite backoff_next by lia.
  by replace (Z.of_nat k + 1) with (Z.of_nat (S k)) by lia.
Qed.

End AnalysisClient.

(** C3. On a rate-limit error (429) [generateImagePrompt] retries after
    waiting 2^attempt seconds, attempt 1 first (2 s, 4 s, 8 s), at most
    3 times, so at most 4 external calls are made and the loop always
    ends.  If the call is rate limited at its first [k <= 3] attempts
    and then answers, the answer's text (or the placeholder when it has
    none) is returned after exactly the first [k] delays: 2 s and 4 s
    for [k = 2].  If it then fails, with an error that is not a rate
    limit or at the fourth attempt, the call fails at once with the
    error's message, or the generic message when it has none. *)
Theorem generateImagePrompt_retry_policy
    (call : nat -> GeminiService.Request -> GeminiService.Outcome)
    (base64Image : string) (instructions : option string) (fuel : nat)
    (Hfuel : (4 <= fuel)%nat) :
  let req := GeminiService.buildRequest base64Image instructions in
  let out := GeminiService.generateImagePrompt fuel call base64Image
               instructions in
  (exists r k, out = Some r /\ (k <= 3)%nat
     /\ GeminiService.waits r = take k backoff
     /\ GeminiService.calls r = S k)
  /\ out = GeminiService.generateImagePrompt 4 call base64Image instructions
  /\ (forall k text, (k <= 3)%nat -> rateLimitedBefore call req k ->
        call k req = GeminiService.Response text ->
        out = Some (GeminiService.mkRun
                      (GeminiService.Resolved
                         (JS.orElse text GeminiService.placeholder))
                      (take k backoff) (S k)))
  /\ (forall k e, (k <= 3)%nat -> rateLimitedBefore call req k ->
        call k req = GeminiService.Throws e ->
        GeminiService.isRateLimit e = false \/ k = 3%nat ->
        out = Some (GeminiService.mkRun
                      (GeminiService.Rejected
                         (JS.orElse (GeminiService.message e)
                            GeminiService.fallbackMessage))
                      (take k backoff) (S k))).
Proof.
  intros req out. subst out. unfold GeminiService.generateImagePrompt.
  fold req.
  assert (Hreach : forall k, (k <= 3)%nat -> rateLimitedBefore call req k ->
            GeminiService.attempt fuel call req 0 0%nat [] =
            GeminiService.attempt (fuel - k) call req (Z.of_nat k) k
              (take k backoff)).
  { intros k Hk Hrl. rewrite <- (attempt_reaches call req (fuel - k) k Hk Hrl).
    f_equal. lia. }
  split; [|split; [|split]].
  - destruct (attempt_ends call req fuel 0) as (r & k & Hr & Hk & Hw & Hc);
      [lia | lia |].
    exists r, k. repeat split; [done | lia | done | done].
  - destruct (attempt_ends call req 4 0) as (r & k & Hr & _); [lia | lia |].
    change (take 0 backoff) with (@nil Z) in Hr. change (Z.of_nat 0) with 0 in Hr.
    rewrite Hr. replace fuel with (4 + (fuel - 4))%nat by lia.
    by apply attempt_more_fuel.
  - intros k text Hk Hrl Hcall. rewrite (Hreach k Hk Hrl).
    destruct (fuel - k)%nat as [|fuel'] eqn:Hf; [lia|].
    cbn [GeminiService.attempt]. by rewrite Hcall.
  - intros k e Hk Hrl Hcall Hstop. rewrite (Hreach k Hk Hrl).
    destruct (fuel - k)%nat as [|fuel'] eqn:Hf; [lia|].
    cbn [GeminiService.attempt]. rewrite Hcall.
    destruct Hstop as [Hno | ->].
    + by rewrite Hno.
    + by rewrite andb_false_r.
Qed.

Lemma generateImagePrompt_retry_policy_witness :
  GeminiService.generateImagePrompt 4 callTwiceLimited
    "data:image/jpeg;base64,AAAA"%string None
  = Some (GeminiService.mkRun
            (GeminiService.Resolved "a harbour at dusk"%string)
            [2000; 4000] 3).
Proof.
  destruct (generateImagePrompt_retry_policy callTwiceLimited
              "data:image/jpeg;base64,AAAA"%string None 4 (le_n 4))
    as (_ & _ & Hok & _).
  apply (Hok 2%nat (Some "a harbour at dusk"%string)).
  - lia.
  - intros j Hj. exists rateLimitError.
    destruct j as [|[|j]]; [split; reflexivity | split; reflexivity | lia].
  - reflexivity.
Defined.

(** ** The pipeline controller: invariants of the reachable states *)

Section Invariants.

Import App.

#[local] Arguments updateFrame : simpl never.

Lemma isPending_true f : isPending f = true <-> status f = PENDING.
Proof. unfold isPending. destruct (status f); cbn; split; congruence. Qed.

Lemma isAnalyzing_true f : isAnalyzing f = true <-> status f = ANALYZING.
Proof. unfold isAnalyzing. destruct (status f); cbn; split; congruence. Qed.

Lemma isDone_true f :
  isDone f = true <-> status f = COMPLETED \/ status f = ERROR.
Proof.
  unfold isDone. destruct (status f); cbn; split; intros H;
    try congruence; try (destruct H; congruence); auto.
Qed.

Lemma no_analyzing fs f :
  existsb isAnalyzing fs = false -> f ∈ fs -> status f <> ANALYZING.
Proof.
  intros Hnone Hf Hst.
  assert (existsb isAnalyzing fs = true) as Hsome; [|congruence].
  apply existsb_exists. exists f. split.
  - by apply list_elem_of_In.
  - by apply isAnalyzing_true.
Qed.

Lemma find_pending fs f :
  find isPending fs = Some f -> f ∈ fs /\ status f = PENDING.
Proof.
  intros H. apply find_some in H as [Hin Hp]. split.
  - by apply list_elem_of_In.
  - by apply isPending_true.
Qed.

(** Identifiers name frames. *)
Lemma same_id_same_frame (fs : list VideoFrame) f g :
  NoDup (id <$> fs) -> f ∈ fs -> g ∈ fs -> id f = id g -> f = g.
Proof.
  induction fs as [|h fs IH]; cbn; intros Hnd Hf Hg Hid.
  - by apply elem_of_nil in Hf.
  - apply list.NoDup_cons in Hnd as [Hh Hnd].
    apply elem_of_cons in Hf as [->|Hf], Hg as [->|Hg]; [done | | | auto].
    + exfalso. apply Hh. rewrite Hid. by apply list_elem_of_fmap_2.
    + exfalso. apply Hh. rewrite <- Hid. by apply list_elem_of_fmap_2.
Qed.

(** *** [updateFrame] *)

Lemma updateFrame_ids fid g fs :
  (forall f, id (g f) = id f) ->
  id <$> updateFrame fid g fs = id <$> fs.
Proof.
  intros Hg. unfold updateFrame. rewrite <- list_fmap_compose.
  apply list_fmap_ext. intros _ f _. cbn.
  destruct (id f =? fid)%nat; [apply Hg | done].
Qed.

Lemma elem_of_updateFrame fid g fs f' :
  f' ∈ updateFrame fid g fs <->
  exists f, f ∈ fs /\ f' = if (id f =? fid)%nat then g f else f.
Proof.
  unfold updateFrame. rewrite list_elem_of_fmap. split.
  - intros (f & -> & Hf). by exists f.
  - intros (f & Hf & ->). by exists f.
Qed.

Lemma updateFrame_split fid g pre f post :
  id f = fid ->
  (forall h, h ∈ pre ++ post -> id h <> fid) ->
  updateFrame fid g (pre ++ f :: post) = pre ++ g f :: post.
Proof.
  intros Hf Hother. unfold updateFrame.
  rewrite fmap_app, fmap_cons.
  assert (Hsame : forall l : list VideoFrame,
             (forall h, h ∈ l -> id h <> fid) ->
             (fun f => if (id f =? fid)%nat then g f else f) <$> l = l).
  { intros l Hl. rewrite <- (list_fmap_id l) at 2.
    apply list_fmap_ext. intros i h Hh. cbn.
    apply list_elem_of_lookup_2 in Hh.
    destruct (Nat.eqb_spec (id h) fid) as [Heq|]; [by apply Hl in Heq | done]. }
  rewrite !Hsame.
  - apply Nat.eqb_eq in Hf. by rewrite Hf.
  - intros h Hh. apply Hother, elem_of_app. by right.
  - intros h Hh. apply Hother, elem_of_app. by left.
Qed.

Lemma markAnalyzing_id f : id (markAnalyzing f) = id f.
Proof. reflexivity. Qed.

Lemma applyResult_id r f : id (applyResult r f) = id f.
Proof. by destruct r. Qed.

Lemma applyResult_status r f :
  status (applyResult r f) = COMPLETED \/ status (applyResult r f) = ERROR.
Proof. destruct r; cbn; auto. Qed.

(** *** [removeFirst] *)

Lemma elem_of_removeFirst x y l :
  y ∈ removeFirst x l -> y ∈ l.
Proof.
  induction l as [|z l IH]; cbn; [done|].
  destruct (z =? x)%nat; rewrite !elem_of_cons; [auto|].
  intros [->|H]; auto.
Qed.

Lemma removeFirst_NoDup x l :
  NoDup l -> NoDup (removeFirst x l) /\ x ∉ removeFirst x l.
Proof.
  induction l as [|z l IH]; cbn; intros Hnd.
  - split; [constructor | apply not_elem_of_nil].
  - apply list.NoDup_cons in Hnd as [Hz Hnd].
    destruct (Nat.eqb_spec z x) as [->|Hne]; [done|].
    destruct (IH Hnd) as [IH1 IH2]. split.
    + apply list.NoDup_cons. split; [|done].
      intros Hin. by apply Hz, elem_of_removeFirst with x.
    + rewrite elem_of_cons. intros [->|Hin]; [done | by apply IH2].
Qed.

(** *** The effect keeps everything but the timer, the processing flag
    and the progress *)

Lemma reconcile_frames s : frames (reconcile s) = frames s.
Proof. unfold reconcile. by repeat case_match. Qed.

Lemma reconcile_inflight s : inflight (reconcile s) = inflight s.
Proof. unfold reconcile. by repeat case_match. Qed.

Lemma reconcile_nextId s : nextId (reconcile s) = nextId s.
Proof. unfold reconcile. by repeat case_match. Qed.

Lemma reconcile_controllers s : controllers (reconcile s) = controllers s.
Proof. unfold reconcile. by repeat case_match. Qed.

Lemma reconcile_ref s :
  abortControllerRef (reconcile s) = abortControllerRef s.
Proof. unfold reconcile. by repeat case_match. Qed.

Lemma reconcile_captures s : captures (reconcile s) = captures s.
Proof. unfold reconcile. by repeat case_match. Qed.

Lemma reconcile_isProcessing s :
  isProcessing (reconcile s) = true -> isProcessing s = true.
Proof.
  unfold reconcile. by repeat case_match.
Qed.

Lemma commit_frames s : frames (commit s) = frames s.
Proof. unfold commit. by rewrite reconcile_frames. Qed.

Lemma commit_inflight s : inflight (commit s) = inflight s.
Proof. unfold commit. by rewrite reconcile_inflight. Qed.

Lemma commit_controllers s : controllers (commit s) = controllers s.
Proof. unfold commit. by rewrite reconcile_controllers. Qed.

Lemma commit_ref s : abortControllerRef (commit s) = abortControllerRef s.
Proof. unfold commit. by rewrite reconcile_ref. Qed.

Lemma commit_captures s : captures (commit s) = captures s.
Proof. unfold commit. by rewrite reconcile_captures. Qed.

Lemma commit_nextId s : nextId (commit s) = nextId s.
Proof. unfold commit. by rewrite reconcile_nextId. Qed.

Lemma commit_aborted c s : aborted c (commit s) = aborted c s.
Proof. unfold aborted. by rewrite commit_controllers. Qed.

Lemma commit_currentAborted s : currentAborted (commit s) = currentAborted s.
Proof.
  unfold currentAborted, aborted. by rewrite commit_ref, commit_controllers.
Qed.

(** The timer after a commit is the one the effect set, if any. *)
Lemma commit_timer s f :
  timer (commit s) = Some f ->
  find isPending (frames s) = Some f
  /\ existsb isAnalyzing (frames s) = false
  /\ isProcessing s = true /\ isProcessing (commit s) = true
  /\ currentAborted s = false.
Proof.
  unfold commit, reconcile, currentAborted, aborted. cbn.
  destruct (isProcessing s) eqn:Hp; cbn; [|done].
  destruct (from_option _ _ _) eqn:Ha; cbn; [done|].
  destruct (existsb isAnalyzing (frames s)) eqn:Han; cbn; [done|].
  destruct (find isPending (frames s)) as [pf|] eqn:Hfind; cbn.
  - intros [= ->]. by rewrite Hp.
  - by repeat case_match.
Qed.

Lemma commit_Inv s : Core s -> Inv (commit s).
Proof.
  intros [Hnd Hfresh Hifresh Hind Hia Hone Href]. split.
  - split; rewrite ?commit_frames, ?commit_inflight, ?commit_nextId,
      ?commit_controllers, ?commit_ref; try done.
    intros Hp. apply Href. by apply reconcile_isProcessing in Hp.
  - intros f Hf. apply commit_timer in Hf as (Hfind & Han & _ & Hp & Hab).
    by rewrite commit_frames, commit_currentAborted.
Qed.

(** *** Every handler preserves the invariant *)

(** A state whose frame list was just emptied. *)
Lemma Core_no_frames s s' :
  Core s -> frames s' = [] ->
  inflight s' = inflight s -> nextId s' = nextId s ->
  (isProcessing s' = true ->
   exists c, abortControllerRef s' = Some c
             /\ (c < length (controllers s'))%nat) ->
  Core s'.
Proof.
  intros [_ _ Hifresh Hind _ _ _] Hfs Hin Hn Href.
  split; rewrite ?Hfs, ?Hin, ?Hn; try done.
  - constructor.
  - intros f Hf. by apply elem_of_nil in Hf.
  - intros f Hf. by apply elem_of_nil in Hf.
  - intros f g Hf. by apply elem_of_nil in Hf.
Qed.

Lemma handleFileSelected_Inv file url s :
  Inv s -> Inv (handleFileSelected file url s).
Proof.
  intros [HC _]. apply commit_Inv.
  by apply (Core_no_frames s).
Qed.

Lemma reset_Inv s : Inv s -> Inv (reset s).
Proof.
  intros [HC _]. apply commit_Inv.
  apply (Core_no_frames s); try done;
    unfold abortCurrent; cbn; by destruct (abortControllerRef s).
Qed.

Lemma startAnalysis_Inv ctx s : Inv s -> Inv (startAnalysis ctx s).
Proof.
  intros HI. unfold startAnalysis.
  destruct (videoSrc s); [|done].
  destruct HI as [HC _]. apply commit_Inv.
  apply (Core_no_frames s); try done; destruct ctx; try done.
  all: intros _; eexists; split; [reflexivity|]; cbn;
    rewrite length_app; cbn; lia.
Qed.

Lemma stopAnalysis_Inv s : Inv s -> Inv (stopAnalysis s).
Proof.
  intros [HC HT]. unfold stopAnalysis.
  assert (Core (setIsProcessing false (abortCurrent s))) as HC'.
  { destruct HC as [Hnd Hfresh Hifresh Hind Hia Hone Href].
    unfold abortCurrent. destruct (abortControllerRef s); by split. }
  destruct (isProcessing s) eqn:Hp; [by apply commit_Inv|].
  split; [done|].
  intros f Hf. exfalso.
  assert (timer s = Some f) as Ht.
  { revert Hf. unfold abortCurrent. by destruct (abortControllerRef s). }
  apply HT in Ht as (_ & _ & Hp' & _). congruence.
Qed.

Lemma changeInterval_Inv parsed s : Inv s -> Inv (changeInterval parsed s).
Proof. intros [[] HT]. by split. Qed.

Lemma metadataLoaded_Inv task d s : Inv s -> Inv (metadataLoaded task d s).
Proof.
  intros HI. unfold metadataLoaded.
  destruct (captures s !! task) as [[]|]; try done.
  destruct HI as [[] HT]. by split.
Qed.

Lemma seeked_Inv task url s : Inv s -> Inv (seeked task url s).
Proof.
  intros HI. unfold seeked.
  destruct (captures s !! task) as [[|c d i total cnt t|]|]; try done.
  destruct HI as [[Hnd Hfresh Hifresh Hind Hia Hone Href] _].
  apply commit_Inv. split; cbn.
  - rewrite fmap_app. apply list.NoDup_app. split; [done|]. split.
    + intros x Hx. cbn. rewrite list_elem_of_singleton. intros ->.
      apply list_elem_of_fmap in Hx as (f & Hid & Hf).
      apply Hfresh in Hf. lia.
    + apply NoDup_singleton.
  - intros f [Hf | ->%list_elem_of_singleton]%elem_of_app; cbn; [|lia].
    apply Hfresh in Hf. lia.
  - intros j Hj. apply Hifresh in Hj. lia.
  - done.
  - intros f [Hf | ->%list_elem_of_singleton]%elem_of_app; cbn; [auto|].
    intros Hj. apply Hifresh in Hj. lia.
  - intros f g [Hf | ->%list_elem_of_singleton]%elem_of_app
      [Hg | ->%list_elem_of_singleton]%elem_of_app; cbn; try done.
    by apply Hone.
  - done.
Qed.

Lemma timerFired_Inv s : Inv s -> Inv (timerFired s).
Proof.
  intros HI. unfold timerFired.
  destruct (timer s) as [tf|] eqn:Ht; [|done].
  destruct HI as [[Hnd Hfresh Hifresh Hind Hia Hone Href] HT].
  destruct (HT tf Ht) as (Hfind & Hnone & Hp & _).
  apply find_pending in Hfind as [Htf Hst].
  apply commit_Inv. split; cbn.
  - by rewrite updateFrame_ids.
  - intros f' (f & Hf & ->)%elem_of_updateFrame.
    destruct (id f =? id tf)%nat; cbn; by apply Hfresh.
  - intros j [Hj | ->%list_elem_of_singleton]%elem_of_app; auto.
  - apply list.NoDup_app. split; [done|]. split; [|apply NoDup_singleton].
    intros j Hj ->%list_elem_of_singleton.
    specialize (Hia tf Htf Hj). congruence.
  - intros f' (f & Hf & ->)%elem_of_updateFrame Hin.
    destruct (Nat.eqb_spec (id f) (id tf)) as [Heq|Hne]; [done|].
    apply elem_of_app in Hin as [Hin | Hin%list_elem_of_singleton];
      [auto | done].
  - intros f' g' (f & Hf & ->)%elem_of_updateFrame
      (g & Hg & ->)%elem_of_updateFrame.
    destruct (Nat.eqb_spec (id f) (id tf)) as [Hef|_];
      destruct (Nat.eqb_spec (id g) (id tf)) as [Heg|_]; cbn;
      intros Hsf Hsg.
    + congruence.
    + by apply (no_analyzing _ _ Hnone) in Hg.
    + by apply (no_analyzing _ _ Hnone) in Hf.
    + by apply (no_analyzing _ _ Hnone) in Hf.
  - done.
Qed.

Lemma processFrameSettle_Inv fid r s :
  Inv s -> Inv (processFrameSettle fid r s).
Proof.
  intros [[Hnd Hfresh Hifresh Hind Hia Hone Href] _].
  destruct (removeFirst_NoDup fid _ Hind) as [Hnd' Hgone].
  apply commit_Inv. split; cbn.
  - rewrite updateFrame_ids; [done | apply applyResult_id].
  - intros f' (f & Hf & ->)%elem_of_updateFrame.
    destruct (id f =? fid)%nat; rewrite ?applyResult_id; by apply Hfresh.
  - intros j Hj%elem_of_removeFirst. auto.
  - done.
  - intros f' (f & Hf & ->)%elem_of_updateFrame Hin.
    destruct (Nat.eqb_spec (id f) fid) as [Heq|Hne].
    + rewrite applyResult_id, Heq in Hin. done.
    + apply elem_of_removeFirst in Hin. auto.
  - intros f' g' (f & Hf & ->)%elem_of_updateFrame
      (g & Hg & ->)%elem_of_updateFrame.
    destruct (Nat.eqb_spec (id f) fid) as [Hef|_];
      destruct (Nat.eqb_spec (id g) fid) as [Heg|_];
      rewrite ?applyResult_id; intros Hsf Hsg;
      try (destruct (applyResult_status r f); congruence);
      try (destruct (applyResult_status r g); congruence).
    by apply Hone.
  - done.
Qed.

Lemma handle_Inv e s : Inv s -> Inv (handle e s).
Proof.
  destruct e; cbn [handle].
  - apply handleFileSelected_Inv.
  - apply reset_Inv.
  - apply startAnalysis_Inv.
  - apply stopAnalysis_Inv.
  - apply changeInterval_Inv.
  - apply metadataLoaded_Inv.
  - apply seeked_Inv.
  - apply timerFired_Inv.
  - apply processFrameSettle_Inv.
Qed.

Lemma init_Inv : Inv init.
Proof.
  split; [split|]; cbn; try done.
  - constructor.
  - intros f Hf. by apply elem_of_nil in Hf.
  - intros f Hf. by apply elem_of_nil in Hf.
  - constructor.
  - intros f Hf. by apply elem_of_nil in Hf.
  - intros f g Hf. by apply elem_of_nil in Hf.
Qed.

Lemma run_Inv trace s s' : Inv s -> run trace s = Some s' -> Inv s'.
Proof.
  revert s. induction trace as [|e trace IH]; cbn; intros s HI.
  - by intros [= <-].
  - unfold step. destruct (enabled e s); [|done].
    apply IH. by apply handle_Inv.
Qed.

Lemma reachable_Inv s : reachable s -> Inv s.
Proof. intros [trace Hrun]. exact (run_Inv trace init s init_Inv Hrun). Qed.

End Invariants.

(** ** The pipeline controller: sequential analysis *)

Section Sequential.

Import App.

#[local] Arguments updateFrame : simpl never.

Lemma filter_one (fs : list VideoFrame) (P : VideoFrame -> bool) :
  NoDup (id <$> fs) ->
  (forall f g, f ∈ fs -> g ∈ fs -> P f = true -> P g = true -> id f = id g) ->
  (length (List.filter P fs) <= 1)%nat.
Proof.
  induction fs as [|h fs IH]; cbn; intros Hnd Hone; [lia|].
  apply list.NoDup_cons in Hnd as [Hh Hnd].
  destruct (P h) eqn:Hph; cbn.
  - assert (List.filter P fs = []) as ->; [|cbn; lia].
    destruct (List.filter P fs) as [|g rest] eqn:Hflt; [done|].
    exfalso.
    assert (In g (List.filter P fs)) as Hg by (rewrite Hflt; by left).
    apply filter_In in Hg as [Hg Hpg]. apply list_elem_of_In in Hg.
    apply Hh. rewrite (Hone h g); [by apply list_elem_of_fmap_2 | | | done..].
    + apply elem_of_cons. by left.
    + apply elem_of_cons. by right.
  - apply IH; [done|]. intros f g Hf Hg.
    apply Hone; apply elem_of_cons; by right.
Qed.

Lemma find_split {A} (P : A -> bool) (l : list A) x :
  find P l = Some x ->
  exists pre post, l = pre ++ x :: post /\ P x = true
                   /\ forall y, y ∈ pre -> P y = false.
Proof.
  induction l as [|h l IH]; cbn; [done|].
  destruct (P h) eqn:Hh.
  - intros [= ->]. exists [], l. repeat split; [done|].
    intros y Hy. by apply elem_of_nil in Hy.
  - intros (pre & post & -> & Hx & Hpre)%IH.
    exists (h :: pre), post. repeat split; [done|].
    intros y [->|Hy]%elem_of_cons; auto.
Qed.

(** The frame the timer holds sits in the list, and no other frame has
    its identifier. *)
Lemma timer_frame_split s f :
  Inv s -> timer s = Some f ->
  exists pre post,
    frames s = pre ++ f :: post
    /\ status f = PENDING
    /\ (forall g, g ∈ pre -> status g <> PENDING)
    /\ (forall h, h ∈ pre ++ post -> id h <> id f)
    /\ existsb isAnalyzing (frames s) = false.
Proof.
  intros [HC HT] Ht. destruct (HT f Ht) as (Hfind & Hnone & _).
  destruct (find_split _ _ _ Hfind) as (pre & post & Hfs & Hp & Hpre).
  exists pre, post. repeat split; [done | by apply isPending_true | | | done].
  - intros g Hg Hst. apply isPending_true in Hst.
    specialize (Hpre g Hg). congruence.
  - destruct HC as [Hnd _ _ _ _ _ _]. rewrite Hfs in Hnd.
    rewrite fmap_app, fmap_cons in Hnd.
    apply list.NoDup_app in Hnd as (_ & Hpre' & Hnd).
    apply list.NoDup_cons in Hnd as [Hpost _].
    intros h [Hh|Hh]%elem_of_app Hid.
    + apply (Hpre' (id h)); [by apply list_elem_of_fmap_2|].
      rewrite Hid. apply elem_of_cons. by left.
    + apply Hpost. rewrite <- Hid. by apply list_elem_of_fmap_2.
Qed.

Lemma timerFired_frames s f :
  timer s = Some f ->
  frames (timerFired s) = updateFrame (id f) markAnalyzing (frames s)
  /\ inflight (timerFired s) = inflight s ++ [id f].
Proof.
  intros Ht. unfold timerFired, processFrameBegin. rewrite Ht.
  by rewrite commit_frames, commit_inflight.
Qed.

Lemma processFrameSettle_frames fid r s :
  frames (processFrameSettle fid r s)
  = updateFrame fid (applyResult r) (frames s).
Proof. unfold processFrameSettle. by rewrite commit_frames. Qed.

Lemma stopAnalysis_frames s :
  frames (stopAnalysis s) = frames s
  /\ inflight (stopAnalysis s) = inflight s.
Proof.
  unfold stopAnalysis, abortCurrent.
  destruct (isProcessing s); rewrite ?commit_frames, ?commit_inflight;
    by destruct (abortControllerRef s).
Qed.

(** What one iteration of the capture loop does. *)
Lemma seeked_resumes task url s c d i total cnt t :
  captures s !! task = Some (AwaitSeeked c d i total cnt t) ->
  let s' := seeked task url s in
  frames s' = frames s ++ [mkFrame (nextId s) t url None PENDING None]
  /\ nextId s' = S (nextId s)
  /\ controllers s' = controllers s
  /\ abortControllerRef s' = abortControllerRef s
  /\ captures s' !! task
     = Some (if JS.lt (JS.ofZ (t + i)) d then
               if aborted c s then Finished
               else AwaitSeeked c d i total (cnt + 1) (t + i)
             else Finished).
Proof.
  intros Htask s'. subst s'. unfold seeked. rewrite Htask.
  rewrite commit_frames, commit_nextId, commit_controllers, commit_ref,
    commit_captures.
  repeat split.
  apply list_lookup_insert_eq. by apply lookup_lt_Some in Htask.
Qed.

Lemma handle_frames e s : FrameChange s e (frames (handle e s)).
Proof.
  destruct e; cbn [handle].
  - unfold handleFileSelected. rewrite commit_frames. exact (change_emptied s _).
  - unfold reset, abortCurrent. rewrite commit_frames.
    destruct (abortControllerRef _); exact (change_emptied s _).
  - unfold startAnalysis. destruct (videoSrc s); [|exact (change_none s _)].
    rewrite commit_frames. destruct ctx; exact (change_emptied s _).
  - destruct (stopAnalysis_frames s) as [-> _]. exact (change_none s _).
  - exact (change_none s _).
  - unfold metadataLoaded.
    destruct (captures s !! task) as [[]|]; exact (change_none s _).
  - destruct (captures s !! task) as [[|c d i total cnt t|]|] eqn:Htask.
    2: { destruct (seeked_resumes task dataUrl s _ _ _ _ _ _ Htask)
           as (-> & _). apply change_appended. }
    all: unfold seeked; rewrite Htask; exact (change_none s _).
  - destruct (timer s) as [tf|] eqn:Ht.
    + destruct (timerFired_frames s tf Ht) as [-> _].
      by apply change_started.
    + unfold timerFired. rewrite Ht. exact (change_none s _).
  - rewrite processFrameSettle_frames. apply change_settled.
Qed.

End Sequential.

(** C1. In every reachable state at most one frame is ANALYZING, however
    many are PENDING; the effect sets its timer only on a frame list
    without an ANALYZING frame, and when the timer fires and
    [processFrame] calls the Analysis Client no frame is ANALYZING. *)
Theorem at_most_one_analyzing (s : App.State) (Hs : App.reachable s) :
  (length (List.filter App.isAnalyzing (App.frames s)) <= 1)%nat
  /\ (forall f, App.timer s = Some f ->
        existsb App.isAnalyzing (App.frames s) = false)
  /\ (App.enabled App.TimerFired s = true ->
        existsb App.isAnalyzing (App.frames s) = false
        /\ (length (List.filter App.isAnalyzing
                      (App.frames (App.handle App.TimerFired s))) <= 1)%nat).
Proof.
  pose proof (reachable_Inv s Hs) as HI.
  assert (Hcount : forall s', Inv s' ->
            (length (List.filter App.isAnalyzing (App.frames s')) <= 1)%nat).
  { intros s' [[Hnd _ _ _ _ Hone _] _]. apply filter_one; [done|].
    intros f g Hf Hg Hpf%isAnalyzing_true Hpg%isAnalyzing_true.
    by apply Hone. }
  split; [by apply Hcount|]. split.
  - intros f Hf. destruct HI as [_ HT]. by destruct (HT f Hf) as (_ & ? & _).
  - cbn [App.enabled App.handle]. intros Hen.
    apply bool_decide_eq_true in Hen as [f Hf]. split.
    + destruct HI as [_ HT]. by destruct (HT f Hf) as (_ & ? & _).
    + by apply Hcount, timerFired_Inv.
Qed.

(** C8. The frame the effect schedules is the first PENDING frame of the
    list (the list is in capture order), and when its timer fires in a
    reachable state it is still that frame: every frame before it has
    left PENDING, and it alone becomes ANALYZING. *)
Theorem analysis_order_is_fifo (s : App.State) (f : App.VideoFrame)
    (Hs : App.reachable s) (Ht : App.timer s = Some f) :
  find App.isPending (App.frames s) = Some f
  /\ exists pre post,
       App.frames s = pre ++ f :: post
       /\ App.status f = App.PENDING
       /\ (forall g, g ∈ pre -> App.status g <> App.PENDING)
       /\ App.frames (App.handle App.TimerFired s)
          = pre ++ App.markAnalyzing f :: post
       /\ App.id f ∈ App.inflight (App.handle App.TimerFired s).
Proof.
  pose proof (reachable_Inv s Hs) as HI. split.
  - destruct HI as [_ HT]. by destruct (HT f Ht) as (? & _).
  - destruct (timer_frame_split s f HI Ht)
      as (pre & post & Hfs & Hst & Hpre & Hids & _).
    destruct (timerFired_frames s f Ht) as [Hfr Hin].
    exists pre, post. repeat split; [done..| |].
    + cbn [App.handle]. rewrite Hfr, Hfs. by apply updateFrame_split.
    + cbn [App.handle]. rewrite Hin. apply elem_of_app. right.
      by apply list_elem_of_singleton.
Qed.

(** C7. No event that can happen in a reachable state moves a frame
    backward or out of a terminal state: the frame with the same
    identifier after the event has the same status or the next one along
    PENDING -> ANALYZING -> {COMPLETED | ERROR}. *)
Theorem status_only_advances (s : App.State) (e : App.Event)
    (f f' : App.VideoFrame)
    (Hs : App.reachable s) (He : App.enabled e s = true)
    (Hf : f ∈ App.frames s) (Hf' : f' ∈ App.frames (App.handle e s))
    (Hid : App.id f = App.id f') :
  advances (App.status f) (App.status f')
  /\ (App.isDone f = true -> App.status f' = App.status f).
Proof.
  pose proof (reachable_Inv s Hs) as HI.
  assert (Hadv : advances (App.status f) (App.status f')).
  { destruct HI as [HC HT].
    pose proof HC as [Hnd Hfresh _ _ Hia _ _].
    assert (Hsame : f' ∈ App.frames s -> f = f').
    { intros Hin. by apply (same_id_same_frame (App.frames s)). }
    destruct (handle_frames e s) as [e|e|e t url|e tf Ht|fid r].
    - by apply elem_of_nil in Hf'.
    - rewrite (Hsame Hf'). constructor.
    - apply elem_of_app in Hf' as [Hf' | ->%list_elem_of_singleton].
      + rewrite (Hsame Hf'). constructor.
      + apply Hfresh in Hf. cbn in Hid. lia.
    - destruct (HT tf Ht) as (Hfind & _).
      apply find_pending in Hfind as [Htf Hst].
      apply elem_of_updateFrame in Hf' as (f0 & Hf0 & ->).
      destruct (Nat.eqb_spec (App.id f0) (App.id tf)) as [Heq|Hne].
      + cbn in Hid |- *.
        assert (f = tf) as -> by
          (apply (same_id_same_frame (App.frames s)); [done..|congruence]).
        rewrite Hst. constructor.
      + rewrite (Hsame Hf0). constructor.
    - apply elem_of_updateFrame in Hf' as (f0 & Hf0 & ->).
      destruct (Nat.eqb_spec (App.id f0) fid) as [Heq|Hne].
      + rewrite applyResult_id in Hid.
        assert (f = f0) as <- by
          by apply (same_id_same_frame (App.frames s)).
        cbn [App.enabled] in He.
        apply existsb_exists in He as (j & Hj & ->%Nat.eqb_eq).
        apply list_elem_of_In in Hj. rewrite <- Heq in Hj.
        rewrite (Hia f Hf Hj). destruct r; constructor.
      + rewrite (Hsame Hf0). constructor. }
  split; [done|].
  intros Hdone%isDone_true. inversion Hadv; destruct Hdone; congruence.
Qed.

(** ** The pipeline controller: failures and cancellation *)

Section Cancellation.

Import App.

#[local] Arguments updateFrame : simpl never.

(** With the run on, no cancellation and nothing ANALYZING, the effect
    schedules the first PENDING frame. *)
Lemma commit_schedules s g :
  isProcessing s = true -> currentAborted s = false ->
  existsb isAnalyzing (frames s) = false ->
  find isPending (frames s) = Some g ->
  timer (commit s) = Some g /\ isProcessing (commit s) = true.
Proof.
  intros Hp Hab Han Hfind. unfold commit, reconcile.
  change (isProcessing (setTimer None s)) with (isProcessing s).
  change (currentAborted (setTimer None s)) with (currentAborted s).
  change (frames (setTimer None s)) with (frames s).
  by rewrite Hp, Hab, Han, Hfind.
Qed.

(** With the run off, the effect leaves no timer. *)
Lemma commit_idle s :
  isProcessing s = false ->
  timer (commit s) = None /\ isProcessing (commit s) = false.
Proof.
  intros Hp. unfold commit, reconcile.
  change (isProcessing (setTimer None s)) with (isProcessing s).
  by rewrite Hp.
Qed.

Lemma find_replace {A} (P : A -> bool) pre x y post :
  P x = false -> P y = false ->
  find P (pre ++ x :: post) = find P (pre ++ y :: post).
Proof.
  intros Hx Hy. induction pre as [|h pre IH]; cbn.
  - by rewrite Hx, Hy.
  - by rewrite IH.
Qed.

Lemma find_pending_exists fs g :
  g ∈ fs -> status g = PENDING -> exists g0, find isPending fs = Some g0.
Proof.
  intros Hg Hst. destruct (find isPending fs) as [g0|] eqn:Hfind; [eauto|].
  apply list_elem_of_In in Hg.
  pose proof (find_none _ _ Hfind g Hg) as Hno.
  apply isPending_true in Hst. congruence.
Qed.

(** The frame of a call in flight sits in the list, alone with its
    identifier, and is the only ANALYZING frame. *)
Lemma inflight_frame_split s f :
  Inv s -> f ∈ frames s -> id f ∈ inflight s ->
  exists pre post,
    frames s = pre ++ f :: post
    /\ status f = ANALYZING
    /\ (forall h, h ∈ pre ++ post -> id h <> id f)
    /\ (forall h, h ∈ pre ++ post -> status h <> ANALYZING).
Proof.
  intros [[Hnd _ _ _ Hia Hone _] _] Hf Hin.
  destruct (list_elem_of_split _ _ Hf) as (pre & post & Hfs).
  assert (Hids : forall h, h ∈ pre ++ post -> id h <> id f).
  { rewrite Hfs, fmap_app, fmap_cons in Hnd.
    apply list.NoDup_app in Hnd as (_ & Hpre & Hnd).
    apply list.NoDup_cons in Hnd as [Hpost _].
    intros h [Hh|Hh]%elem_of_app Hid.
    - apply (Hpre (id h)); [by apply list_elem_of_fmap_2|].
      rewrite Hid. apply elem_of_cons. by left.
    - apply Hpost. rewrite <- Hid. by apply list_elem_of_fmap_2. }
  exists pre, post. repeat split; [done | by apply Hia | done |].
  intros h Hh Hst. apply (Hids h Hh), Hone; [| done | done | by apply Hia].
  rewrite Hfs. apply elem_of_app in Hh as [Hh|Hh]; apply elem_of_app;
    [by left | right; apply elem_of_cons; by right].
Qed.

Lemma existsb_false_split {A} (P : A -> bool) pre x post :
  P x = false -> (forall h, h ∈ pre ++ post -> P h = false) ->
  existsb P (pre ++ x :: post) = false.
Proof.
  intros Hx Hall. rewrite existsb_app. cbn. rewrite Hx. cbn.
  rewrite <- existsb_app. apply not_true_is_false.
  intros (h & Hh & Hp)%existsb_exists.
  apply list_elem_of_In in Hh. rewrite (Hall h Hh) in Hp. done.
Qed.

(** While the run is off only a click on start sets it on again or
    sets a timer. *)
Lemma idle_stays_idle e s :
  isProcessing s = false -> timer s = None ->
  (forall ctx, e <> ClickStart ctx) ->
  isProcessing (handle e s) = false /\ timer (handle e s) = None.
Proof.
  intros Hp Ht Hne.
  destruct e; cbn [handle]; try (by destruct (Hne ctx)).
  - unfold handleFileSelected. split; by apply commit_idle.
  - unfold reset. split; apply commit_idle;
      unfold abortCurrent; cbn; by destruct (abortControllerRef s).
  - unfold stopAnalysis. rewrite Hp. cbn.
    unfold abortCurrent. by destruct (abortControllerRef s).
  - done.
  - unfold metadataLoaded. by destruct (captures s !! task) as [[]|].
  - unfold seeked.
    destruct (captures s !! task) as [[|c d i total cnt t|]|]; try done.
    split; by apply commit_idle.
  - unfold timerFired. by rewrite Ht.
  - unfold processFrameSettle. split; by apply commit_idle.
Qed.

End Cancellation.

(** C9. When the call of a frame in flight fails (after exhausted retries
    or at once), only that frame changes: it becomes ERROR with the
    error's message, which is never empty when it comes from
    [generateImagePrompt].  The run goes on: if it is on and not
    cancelled and a PENDING frame exists, the effect schedules the first
    one, and its timer makes it ANALYZING with its call in flight. *)
Theorem frame_failure_does_not_abort_run (s : App.State)
    (f : App.VideoFrame) (msg : string)
    (Hs : App.reachable s) (Hf : f ∈ App.frames s)
    (Hin : App.id f ∈ App.inflight s) :
  let failed := App.AnalysisSettled (App.id f) (GeminiService.Rejected msg) in
  let s' := App.handle failed s in
  App.enabled failed s = true
  /\ (exists pre post,
        App.frames s = pre ++ f :: post
        /\ App.frames s' = pre ++ App.markError msg f :: post)
  /\ App.status (App.markError msg f) = App.ERROR
  /\ App.errorMessage (App.markError msg f) = Some msg
  /\ (forall fuel call img instr r,
        GeminiService.generateImagePrompt fuel call img instr = Some r ->
        GeminiService.result r = GeminiService.Rejected msg ->
        msg <> EmptyString)
  /\ (App.isProcessing s = true -> App.currentAborted s = false ->
      forall g, g ∈ App.frames s -> App.status g = App.PENDING ->
      exists g0,
        find App.isPending (App.frames s) = Some g0
        /\ App.isProcessing s' = true
        /\ App.timer s' = Some g0
        /\ App.markAnalyzing g0 ∈ App.frames (App.handle App.TimerFired s')
        /\ App.id g0 ∈ App.inflight (App.handle App.TimerFired s')).
Proof.
  intros failed s'. pose proof (reachable_Inv s Hs) as HI.
  destruct (inflight_frame_split s f HI Hf Hin)
    as (pre & post & Hfs & Hst & Hids & Hothers).
  assert (Hfr : App.frames s' = pre ++ App.markError msg f :: post).
  { subst s' failed. cbn [App.handle]. rewrite processFrameSettle_frames, Hfs.
    by apply updateFrame_split. }
  split; [|split; [|split; [|split; [|split]]]].
  - cbn [App.enabled]. apply existsb_exists. exists (App.id f).
    split; [by apply list_elem_of_In | apply Nat.eqb_refl].
  - by exists pre, post.
  - reflexivity.
  - reflexivity.
  - intros fuel call img instr r Hrun Hres.
    assert (Hne : forall m, JS.orElse m GeminiService.fallbackMessage
                            <> EmptyString).
    { intros [[|a m]|]; cbn; discriminate. }
    unfold GeminiService.generateImagePrompt in Hrun.
    revert Hrun. generalize 0 0%nat (@nil Z).
    induction fuel as [|fuel IH]; intros retries n ws; cbn; [done|].
    destruct (call n _) as [text|e].
    + intros [= <-]. cbn in Hres. discriminate.
    + destruct (_ && _); [apply IH|].
      intros [= <-]. cbn in Hres. injection Hres as <-. apply Hne.
  - intros Hp Hab g Hg Hgst.
    destruct (find_pending_exists _ g Hg Hgst) as [g0 Hfind].
    exists g0.
    assert (Hfind' : find App.isPending (App.frames s') = Some g0).
    { rewrite Hfr, <- (find_replace _ pre f); [by rewrite <- Hfs | | done].
      unfold App.isPending. by rewrite Hst. }
    assert (Hnone : existsb App.isAnalyzing (App.frames s') = false).
    { rewrite Hfr. apply existsb_false_split; [done|].
      intros h Hh. apply not_true_is_false. intros Hh'%isAnalyzing_true.
      by apply (Hothers h Hh). }
    assert (Hsched : App.timer s' = Some g0 /\ App.isProcessing s' = true).
    { subst s' failed. cbn [App.handle] in *.
      unfold App.processFrameSettle in *. rewrite commit_frames in *.
      by apply commit_schedules. }
    destruct Hsched as [Htimer Hproc].
    destruct (timerFired_frames s' g0 Htimer) as [Hfr' Hin'].
    repeat split; [done..| |].
    + cbn [App.handle]. rewrite Hfr'. apply elem_of_updateFrame.
      exists g0. rewrite Nat.eqb_refl. split; [|done].
      by apply find_pending in Hfind' as [Hg0 _].
    + cbn [App.handle]. rewrite Hin'. apply elem_of_app. right.
      by apply list_elem_of_singleton.
Qed.

(** C5 (as amended). A click on stop aborts the current controller, sets
    the run off and clears the effect's timer, and leaves the frames and
    the calls in flight as they are.  The result of a call in flight is
    not discarded: when it settles, its frame (ANALYZING until then)
    becomes COMPLETED with the prompt or ERROR with the message.  What
    stop prevents is further scheduling: while the run is off, no event
    but a click on start sets a timer. *)
Theorem stop_keeps_inflight_result (s : App.State)
    (Hs : App.reachable s) (He : App.enabled App.ClickStop s = true) :
  let s1 := App.handle App.ClickStop s in
  App.currentAborted s1 = true
  /\ App.isProcessing s1 = false /\ App.timer s1 = None
  /\ App.frames s1 = App.frames s /\ App.inflight s1 = App.inflight s
  /\ (forall fid r,
        let s2 := App.handle (App.AnalysisSettled fid r) s1 in
        App.frames s2 = App.updateFrame fid (App.applyResult r) (App.frames s1)
        /\ (forall f, f ∈ App.frames s1 -> App.id f = fid ->
              fid ∈ App.inflight s1 ->
              App.status f = App.ANALYZING /\ App.applyResult r f ∈ App.frames s2)
        /\ App.isProcessing s2 = false /\ App.timer s2 = None)
  /\ (forall s2 e, App.isProcessing s2 = false -> App.timer s2 = None ->
        (forall ctx, e <> App.ClickStart ctx) ->
        App.isProcessing (App.handle e s2) = false
        /\ App.timer (App.handle e s2) = None).
Proof.
  intros s1. pose proof (reachable_Inv s Hs) as HI.
  cbn [App.enabled] in He. apply andb_true_iff in He as [_ Hp].
  assert (HI1 : Inv s1) by by apply stopAnalysis_Inv.
  destruct (stopAnalysis_frames s) as [Hfr Hin].
  assert (Hidle : App.isProcessing s1 = false /\ App.timer s1 = None).
  { subst s1. cbn [App.handle]. unfold App.stopAnalysis. rewrite Hp.
    split; by apply commit_idle. }
  destruct Hidle as [Hp1 Ht1].
  split; [|split; [done|split; [done|split; [done|split; [done|split]]]]].
  - subst s1. cbn [App.handle]. unfold App.stopAnalysis. rewrite Hp.
    rewrite commit_currentAborted.
    destruct HI as [[_ _ _ _ _ _ Href] _].
    destruct (Href Hp) as (c & Hc & Hlt).
    unfold App.currentAborted, App.abortCurrent, App.aborted. rewrite Hc. cbn.
    by rewrite list_lookup_insert_eq.
  - intros fid r s2.
    assert (Hfr2 : App.frames s2
                   = App.updateFrame fid (App.applyResult r) (App.frames s1)).
    { subst s2. cbn [App.handle]. apply processFrameSettle_frames. }
    split; [done|]. split.
    + intros f Hf Hid Hfid. destruct HI1 as [[_ _ _ _ Hia _ _] _]. split.
      * apply Hia; [done | by rewrite Hid].
      * rewrite Hfr2. apply elem_of_updateFrame. exists f.
        apply Nat.eqb_eq in Hid. by rewrite Hid.
    + subst s2. cbn [App.handle]. unfold App.processFrameSettle.
      split; by apply commit_idle.
  - intros s2 e. apply idle_stays_idle.
Qed.

(** C10. [handleFileSelected] empties the frame list, zeroes the progress
    and sets the run off, and aborts nothing: a capture loop waiting for
    its seek, whose controller is not aborted, resumes as before; its
    next frame is the only frame of the emptied list and, if the loop
    condition holds, it goes on to the next seek.  After [reset], when
    the loop's controller is the current one, the controller is aborted
    and the loop ends at its next check. *)
Theorem handleFileSelected_leaves_capture_running (s : App.State)
    (task c : nat) (d total : JS.number) (i cnt t : Z)
    (file url dataUrl : string)
    (Htask : App.captures s !! task
             = Some (App.AwaitSeeked c d i total cnt t))
    (Hlive : App.controllers s !! c = Some false) :
  let s1 := App.handleFileSelected file url s in
  App.frames s1 = [] /\ App.progress s1 = JS.ofZ 0
  /\ App.isProcessing s1 = false
  /\ App.controllers s1 = App.controllers s /\ App.aborted c s1 = false
  /\ App.captures s1 !! task = Some (App.AwaitSeeked c d i total cnt t)
  /\ App.frames (App.seeked task dataUrl s1)
     = [App.mkFrame (App.nextId s) t dataUrl None App.PENDING None]
  /\ (JS.lt (JS.ofZ (t + i)) d = true ->
      App.captures (App.seeked task dataUrl s1) !! task
      = Some (App.AwaitSeeked c d i total (cnt + 1) (t + i)))
  /\ (App.abortControllerRef s = Some c ->
      App.aborted c (App.reset s) = true
      /\ App.captures (App.seeked task dataUrl (App.reset s)) !! task
         = Some App.Finished).
Proof.
  intros s1.
  assert (Hlen : (task < length (App.captures s))%nat)
    by by apply lookup_lt_Some in Htask.
  assert (Hcap1 : App.captures s1 !! task
                  = Some (App.AwaitSeeked c d i total cnt t)).
  { subst s1. unfold App.handleFileSelected. by rewrite commit_captures. }
  assert (Hab1 : App.aborted c s1 = false).
  { subst s1. unfold App.handleFileSelected. rewrite commit_aborted.
    unfold App.aborted. cbn. by rewrite Hlive. }
  split; [|split; [|split; [|split; [|split; [|split; [|split; [|split]]]]]]].
  - subst s1. unfold App.handleFileSelected. by rewrite commit_frames.
  - reflexivity.
  - reflexivity.
  - subst s1. unfold App.handleFileSelected. by rewrite commit_controllers.
  - done.
  - done.
  - destruct (seeked_resumes task dataUrl s1 _ _ _ _ _ _ Hcap1) as (-> & _).
    by subst s1.
  - intros Hlt.
    destruct (seeked_resumes task dataUrl s1 _ _ _ _ _ _ Hcap1)
      as (_ & _ & _ & _ & ->).
    by rewrite Hlt, Hab1.
  - intros Href.
    assert (Hc : (c < length (App.controllers s))%nat)
      by by apply lookup_lt_Some in Hlive.
    assert (Habr : App.aborted c (App.reset s) = true).
    { unfold App.reset. rewrite commit_aborted.
      unfold App.aborted, App.abortCurrent. cbn. rewrite Href. cbn.
      by rewrite list_lookup_insert_eq. }
    assert (Hcapr : App.captures (App.reset s) = App.captures s).
    { unfold App.reset. rewrite commit_captures.
      unfold App.abortCurrent. cbn. by rewrite Href. }
    split; [done|]. rewrite <- Hcapr in Htask.
    destruct (seeked_resumes task dataUrl (App.reset s) _ _ _ _ _ _ Htask)
      as (_ & _ & _ & _ & ->).
    rewrite Habr. by destruct (JS.lt _ _).
Qed.

(** ** The frame capturer *)

Section Capture.

Import App.

Local Open Scope Q_scope.

Lemma lt_ofZ_Num z D : JS.lt (JS.ofZ z) (JS.Num D) = true <-> inject_Z z < D.
Proof.
  unfold JS.lt, JS.ofZ. rewrite negb_true_iff. split.
  - intros Hle. apply Qnot_le_lt. intros H%Qle_bool_iff. congruence.
  - intros Hlt. apply not_true_is_false. intros H%Qle_bool_iff.
    by apply Qlt_not_le in Hlt.
Qed.

(** The number of multiples of [i] below [D] is the ceiling of [D / i]. *)
Lemma ceiling_bounds (D : Q) (i : Z) :
  0 < D -> (1 <= i)%Z ->
  let n := Qceiling (D / inject_Z i) in
  (1 <= n)%Z
  /\ inject_Z ((n - 1) * i) < D
  /\ D <= inject_Z (n * i).
Proof.
  intros HD Hi n.
  assert (Hi' : 0 < inject_Z i).
  { change 0 with (inject_Z 0). rewrite <- Zlt_Qlt. lia. }
  pose proof (Qle_ceiling (D / inject_Z i)) as Hup.
  pose proof (Qceiling_lt (D / inject_Z i)) as Hlow.
  fold n in Hup, Hlow.
  assert (Hq : 0 < D / inject_Z i).
  { apply Qlt_shift_div_l; [done|]. by rewrite Qmult_0_l. }
  split; [|split].
  - assert (0 < inject_Z n) as Hn by (eapply Qlt_le_trans; eauto).
    change 0 with (inject_Z 0) in Hn. rewrite <- Zlt_Qlt in Hn. lia.
  - apply Qnot_le_lt. intros Hle.
    rewrite inject_Z_mult in Hle.
    apply Qle_shift_div_r in Hle; [|done].
    by apply Qlt_not_le in Hlow.
  - apply Qnot_lt_le. intros Hlt.
    rewrite inject_Z_mult in Hlt.
    apply Qlt_shift_div_l in Hlt; [|done].
    by apply Qlt_not_le in Hlt.
Qed.

Lemma runCapture_done fuel task shot s :
  captures s !! task = Some Finished ->
  runCapture fuel task shot s = Some s.
Proof. intros H. destruct fuel; cbn; by rewrite H. Qed.

Lemma runCapture_step fuel task shot s c d i total cnt t :
  captures s !! task = Some (AwaitSeeked c d i total cnt t) ->
  runCapture (S fuel) task shot s
  = runCapture fuel task shot (seeked task (shot t) s).
Proof. intros H. cbn [runCapture]. by rewrite H. Qed.

Lemma shots_S shot first time i n :
  shots shot first time i (S n)
  = mkFrame first time (shot time) None PENDING None
    :: shots shot (S first) (time + i)%Z i n.
Proof.
  unfold shots. cbn [seq fmap list_fmap].
  rewrite Nat.add_0_r, Z.mul_0_l, Z.add_0_r. f_equal.
  rewrite <- fmap_S_seq, <- list_fmap_compose.
  apply list_fmap_ext. intros _ k _. cbn.
  replace (time + i + Z.of_nat k * i)%Z
    with (time + Z.pos (Pos.of_succ_nat k) * i)%Z by lia.
  f_equal. lia.
Qed.

(** A capture loop that nothing aborts runs through every remaining
    multiple of the interval below the duration. *)
Lemma runCapture_emits n : forall fuel task shot s c D i total cnt t,
  captures s !! task = Some (AwaitSeeked c (JS.Num D) i total cnt t) ->
  aborted c s = false ->
  inject_Z (t + Z.of_nat n * i) < D ->
  D <= inject_Z (t + (Z.of_nat n + 1) * i) ->
  (0 < i)%Z -> (S n <= fuel)%nat ->
  exists s',
    runCapture fuel task shot s = Some s'
    /\ frames s' = frames s ++ shots shot (nextId s) t i (S n)
    /\ captures s' !! task = Some Finished.
Proof.
  induction n as [|n IH]; intros fuel task shot s c D i total cnt t
    Htask Hlive Hlow Hup Hi Hfuel.
  - destruct fuel as [|fuel]; [lia|].
    rewrite (runCapture_step _ _ _ _ _ _ _ _ _ _ Htask).
    destruct (seeked_resumes task (shot t) s _ _ _ _ _ _ Htask)
      as (Hfr & _ & _ & _ & Hcap).
    assert (JS.lt (JS.ofZ (t + i)) (JS.Num D) = false) as Hstop.
    { apply not_true_is_false. intros Hlt%lt_ofZ_Num.
      apply Qlt_not_le in Hlt. apply Hlt.
      by replace (t + i)%Z with (t + (Z.of_nat 0 + 1) * i)%Z by lia. }
    rewrite Hstop in Hcap.
    eexists. split; [by apply runCapture_done|]. split; [|done].
    rewrite Hfr, shots_S. reflexivity.
  - destruct fuel as [|fuel]; [lia|].
    rewrite (runCapture_step _ _ _ _ _ _ _ _ _ _ Htask).
    destruct (seeked_resumes task (shot t) s _ _ _ _ _ _ Htask)
      as (Hfr & Hnext & Hctl & _ & Hcap).
    assert (JS.lt (JS.ofZ (t + i)) (JS.Num D) = true) as Hgo.
    { apply lt_ofZ_Num. eapply Qle_lt_trans; [|exact Hlow].
      rewrite <- Zle_Qle. nia. }
    rewrite Hgo, Hlive in Hcap.
    destruct (IH fuel task shot _ _ _ _ _ _ _ Hcap)
      as (s' & Hrun & Hfr' & Hfin).
    + unfold aborted in *. by rewrite Hctl.
    + by replace (t + i + Z.of_nat n * i)%Z
        with (t + Z.of_nat (S n) * i)%Z by lia.
    + by replace (t + i + (Z.of_nat n + 1) * i)%Z
        with (t + (Z.of_nat (S n) + 1) * i)%Z by lia.
    + done.
    + lia.
    + exists s'. split; [done|]. split; [|done].
      rewrite Hfr', Hfr, Hnext, <- app_assoc. cbn [app].
      by rewrite (shots_S shot (nextId s) t i (S n)).
Qed.

(** [startAnalysis] on a selected video. *)
Lemma startAnalysis_starts s :
  is_Some (videoSrc s) ->
  let s1 := startAnalysis true s in
  frames s1 = [] /\ nextId s1 = nextId s
  /\ controllers s1 = controllers s ++ [false]
  /\ captures s1
     = captures s ++ [AwaitMetadata (length (controllers s)) (config s)].
Proof.
  intros [src Hsrc] s1. subst s1. unfold startAnalysis. rewrite Hsrc.
  by rewrite commit_frames, commit_nextId, commit_controllers,
    commit_captures.
Qed.

(** ... and [loadedmetadata]. *)
Lemma metadataLoaded_starts s d :
  is_Some (videoSrc s) ->
  let task := length (captures s) in
  let c := length (controllers s) in
  let i := Z.max 1 (interval (config s)) in
  let s2 := metadataLoaded task d (startAnalysis true s) in
  frames s2 = [] /\ nextId s2 = nextId s /\ aborted c s2 = false
  /\ captures s2 !! task
     = Some (if JS.lt (JS.ofZ 0) d then
               AwaitSeeked c d i (JS.floor (JS.div d (JS.ofZ i))) 0 0
             else Finished).
Proof.
  intros Hsrc task c i s2.
  destruct (startAnalysis_starts s Hsrc) as (Hfr & Hnext & Hctl & Hcap).
  subst s2. revert Hfr Hnext Hctl Hcap.
  generalize (startAnalysis true s). intros s1 Hfr Hnext Hctl Hcap.
  assert (Hlook : captures s1 !! task = Some (AwaitMetadata c (config s))).
  { rewrite Hcap. by apply list_lookup_middle. }
  assert (Hab : aborted c s1 = false).
  { unfold aborted. rewrite Hctl.
    by rewrite (list_lookup_middle (controllers s) [] false c). }
  unfold metadataLoaded. rewrite Hlook.
  split; [done|]. split; [done|]. split; [done|].
  cbn [captures setCaptures].
  rewrite list_lookup_insert_eq by (by apply lookup_lt_Some in Hlook).
  unfold loopHead. by rewrite Hab.
Qed.

End Capture.

(** C2 (as amended). For a video of duration [D > 0] and the interval
    [i = max 1 interval], a capture loop that is not cancelled emits one
    PENDING frame for every multiple of [i] strictly below [D], in
    order: the [n] timestamps 0, i, 2i, ... where [n] is the ceiling of
    [D / i].  That is the floor of [D / i] when [i] divides [D], one more
    otherwise, and 1 when [i >= D].  When the duration is zero or [NaN]
    nothing is emitted. *)
Theorem capture_emits_every_multiple (s : App.State) (D : Q)
    (shot : Z -> string) (fuel : nat)
    (Hsrc : is_Some (App.videoSrc s)) (HD : (0 < D)%Q)
    (Hfuel : (Z.to_nat
                (Qceiling
                   (D / inject_Z (Z.max 1 (App.interval (App.config s)))))
              <= fuel)%nat) :
  let i := Z.max 1 (App.interval (App.config s)) in
  let n := Z.to_nat (Qceiling (D / inject_Z i)) in
  let task := length (App.captures s) in
  let started := App.startAnalysis true s in
  (exists s',
     App.runCapture fuel task shot
       (App.metadataLoaded task (JS.Num D) started) = Some s'
     /\ App.frames s' = shots shot (App.nextId s) 0 i n
     /\ App.timestamp <$> App.frames s'
        = (fun k : nat => Z.of_nat k * i) <$> seq 0 n
     /\ App.captures s' !! task = Some App.Finished)
  /\ (1 <= n)%nat
  /\ (forall k : nat, (k < n)%nat <-> (inject_Z (Z.of_nat k * i) < D)%Q)
  /\ Qfloor (D / inject_Z i) <= Z.of_nat n <= Qfloor (D / inject_Z i) + 1
  /\ ((inject_Z (Qfloor (D / inject_Z i)) == D / inject_Z i)%Q ->
      Z.of_nat n = Qfloor (D / inject_Z i))
  /\ ((D <= inject_Z i)%Q -> n = 1%nat)
  /\ (forall d, d = JS.NaN \/ (exists q, d = JS.Num q /\ (q <= 0)%Q) ->
      let s2 := App.metadataLoaded task d started in
      App.runCapture fuel task shot s2 = Some s2 /\ App.frames s2 = []).
Proof.
  intros i n task started.
  assert (Hi : 1 <= i) by (subst i; lia).
  destruct (ceiling_bounds D i HD Hi) as (Hn1 & Hlow & Hup).
  fold i in Hfuel. set (c := Qceiling (D / inject_Z i)) in *.
  assert (Hnc : Z.of_nat n = c) by (subst n; lia).
  split; [|split; [|split; [|split; [|split; [|split]]]]].
  - destruct (metadataLoaded_starts s (JS.Num D) Hsrc)
      as (Hfr & Hnext & Hlive & Hcap).
    fold task started i in Hfr, Hnext, Hlive, Hcap.
    assert (JS.lt (JS.ofZ 0) (JS.Num D) = true) as Hgo by by apply lt_ofZ_Num.
    rewrite Hgo in Hcap.
    assert (Hm : Z.of_nat (n - 1) = c - 1) by lia.
    destruct (runCapture_emits (n - 1) fuel task shot _ _ _ _ _ _ _ Hcap Hlive)
      as (s' & Hrun & Hfr' & Hfin).
    + by rewrite Hm, Z.add_0_l.
    + rewrite Hm, Z.add_0_l. by replace (c - 1 + 1) with c by lia.
    + lia.
    + lia.
    + replace (S (n - 1)) with n in Hfr' by lia.
      rewrite Hfr, Hnext in Hfr'. cbn [app] in Hfr'.
      exists s'. split; [done|]. split; [done|]. split; [|done].
      rewrite Hfr'. unfold shots. rewrite <- list_fmap_compose.
      apply list_fmap_ext. intros _ k _. cbn. lia.
  - lia.
  - intros k. split.
    + intros Hk. eapply Qle_lt_trans; [|exact Hlow].
      rewrite <- Zle_Qle. nia.
    + intros Hk. assert (Z.of_nat k * i < c * i) as Hlt.
      { rewrite Zlt_Qlt. by eapply Qlt_le_trans. }
      assert (Z.of_nat k < c) by nia. lia.
  - rewrite Hnc. split.
    + rewrite Zle_Qle. apply Qle_floor_ceiling.
    + assert (c - 1 < Qfloor (D / inject_Z i) + 1); [|lia].
      rewrite Zlt_Qlt.
      eapply Qlt_trans; [apply Qceiling_lt | apply Qlt_floor].
  - intros Hint. rewrite Hnc. subst c.
    rewrite <- (Qceiling_comp _ _ Hint). apply Qceiling_Z.
  - intros Hshort.
    assert ((c - 1) * i < 1 * i) as Hlt.
    { rewrite Zlt_Qlt. eapply Qlt_le_trans; [exact Hlow|].
      by rewrite Z.mul_1_l. }
    assert (c - 1 < 1) by nia. lia.
  - intros d Hd s2.
    destruct (metadataLoaded_starts s d Hsrc) as (Hfr & _ & _ & Hcap).
    fold task started s2 in Hfr, Hcap.
    assert (JS.lt (JS.ofZ 0) d = false) as Hstop.
    { destruct Hd as [->|(q & -> & Hq)]; [done|].
      apply not_true_is_false. intros Hlt%lt_ofZ_Num.
      by apply Qlt_not_le in Hlt. }
    rewrite Hstop in Hcap. split; [by apply runCapture_done | done].
Qed.

(** ** Progress *)

Section Progress.

Import App.

Local Open Scope Q_scope.

(** The effect leaves the progress alone while a frame is PENDING. *)
Lemma commit_progress_pending s f :
  find isPending (frames s) = Some f -> progress (commit s) = progress s.
Proof.
  intros Hfind. unfold commit, reconcile.
  change (frames (setTimer None s)) with (frames s). rewrite Hfind.
  by repeat case_match.
Qed.

Lemma floor_short (D : Q) (i : Z) :
  0 < D -> D < inject_Z i -> Qfloor (D / inject_Z i) = 0%Z.
Proof.
  intros HD Hshort.
  assert (Hi : 0 < inject_Z i) by by eapply Qlt_trans.
  assert (Hq0 : 0 < D / inject_Z i).
  { apply Qlt_shift_div_l; [done|]. by rewrite Qmult_0_l. }
  assert (Hq1 : D / inject_Z i < 1).
  { apply Qlt_shift_div_r; [done|]. by rewrite Qmult_1_l. }
  pose proof (Qfloor_le (D / inject_Z i)) as Hlow.
  pose proof (Qlt_floor (D / inject_Z i)) as Hup.
  assert (Qfloor (D / inject_Z i) < 1)%Z.
  { rewrite Zlt_Qlt. by eapply Qle_lt_trans. }
  assert (0 < Qfloor (D / inject_Z i) + 1)%Z.
  { rewrite Zlt_Qlt. by eapply Qlt_trans. }
  lia.
Qed.

(** A video shorter than the interval: the loop runs once, for [t = 0],
    with [totalFrames = 0], and its progress is [1 / 0 * 50]. *)
Lemma short_video_capture (s : State) (D : Q) (dataUrl : string) :
  is_Some (videoSrc s) -> 0 < D ->
  D < inject_Z (Z.max 1 (interval (config s))) ->
  let i := Z.max 1 (interval (config s)) in
  let task := length (captures s) in
  let s2 := metadataLoaded task (JS.Num D) (startAnalysis true s) in
  let s3 := seeked task dataUrl s2 in
  captures s2 !! task
  = Some (AwaitSeeked (length (controllers s)) (JS.Num D) i (JS.ofZ 0) 0 0)
  /\ frames s3 = [mkFrame (nextId s) 0 dataUrl None PENDING None]
  /\ captures s3 !! task = Some Finished
  /\ progress s3 = JS.PosInf.
Proof.
  intros Hsrc HD Hshort i task s2 s3.
  destruct (metadataLoaded_starts s (JS.Num D) Hsrc)
    as (Hfr & Hnext & Hlive & Hcap).
  fold task i s2 in Hfr, Hnext, Hlive, Hcap.
  assert (JS.lt (JS.ofZ 0) (JS.Num D) = true) as Hgo by by apply lt_ofZ_Num.
  rewrite Hgo in Hcap.
  assert (Htotal : JS.floor (JS.div (JS.Num D) (JS.ofZ i)) = JS.ofZ 0).
  { unfold JS.div, JS.ofZ.
    destruct (Qeq_bool (inject_Z i) 0) eqn:Hz.
    - apply Qeq_bool_iff in Hz. exfalso. apply (Qlt_irrefl 0).
      eapply Qlt_trans; [exact HD|].
      eapply Qlt_le_trans; [exact Hshort|].
      apply Qle_lteq. by right.
    - cbn [JS.floor]. by rewrite floor_short. }
  rewrite Htotal in Hcap.
  destruct (seeked_resumes task dataUrl s2 _ _ _ _ _ _ Hcap)
    as (Hfr3 & _ & _ & _ & Hcap3).
  fold s3 in Hfr3, Hcap3.
  assert (JS.lt (JS.ofZ (0 + i)) (JS.Num D) = false) as Hstop.
  { apply not_true_is_false. intros Hlt%lt_ofZ_Num.
    by apply (Qlt_irrefl D), (Qlt_trans _ (inject_Z i)). }
  rewrite Hstop in Hcap3. rewrite Hfr, Hnext in Hfr3.
  split; [done|]. split; [done|]. split; [done|].
  subst s3. unfold seeked. rewrite Hcap.
  erewrite commit_progress_pending.
  - reflexivity.
  - cbn [frames setCaptures setProgress setNextId setFrames].
    rewrite Hfr. reflexivity.
Qed.

End Progress.

Lemma after_reachable trace :
  is_Some (App.run trace App.init) -> App.reachable (after trace).
Proof. intros [s Hs]. exists trace. unfold after. by rewrite Hs. Defined.

(** C2, counterexample. A ten-second clip sampled every 3 seconds gives
    4 frames (at 0, 3, 6 and 9), not the floor of 10 / 3. *)
Lemma capture_count_counterexample :
  exists s',
    App.runCapture 4 0 (fun _ => "jpeg"%string)
      (App.metadataLoaded 0 (JS.Num 10)
         (App.startAnalysis true (after clipSelected))) = Some s'
    /\ App.timestamp <$> App.frames s' = [0; 3; 6; 9]
    /\ specFrameCount 10 (Z.max 1 (App.interval (App.config (after clipSelected))))
       = 3
    /\ Z.of_nat (length (App.frames s'))
       <> specFrameCount 10
            (Z.max 1 (App.interval (App.config (after clipSelected)))).
Proof.
  eexists. split; [vm_compute; reflexivity|].
  vm_compute. repeat split. discriminate.
Qed.

(** C6. A two-second clip sampled every 3 seconds gives exactly one
    frame, at [t = 0], but [totalFrames] is 0, not at least 1, and the
    progress of the capture is [1 / 0 * 50 = Infinity]. *)
Theorem short_clip_progress_divides_by_zero :
  let s := after clipSelected in
  let s2 := App.metadataLoaded 0 (JS.Num 2) (App.startAnalysis true s) in
  let s3 := App.seeked 0 "frame@0" s2 in
  App.interval (App.config s) = 3
  /\ App.captures s2 !! 0%nat
     = Some (App.AwaitSeeked 0 (JS.Num 2) 3 (JS.ofZ 0) 0 0)
  /\ App.frames s3 = [App.mkFrame 0 0 "frame@0" None App.PENDING None]
  /\ App.captures s3 !! 0%nat = Some App.Finished
  /\ App.progress s3 = JS.PosInf.
Proof.
  intros s s2 s3. split; [reflexivity|].
  assert (Hsrc : is_Some (App.videoSrc s)) by (eexists; reflexivity).
  exact (short_video_capture s 2 "frame@0" Hsrc eq_refl eq_refl).
Qed.

(** C4. Two runs on which the progress misbehaves.  On a clip of 1.5
    seconds sampled every second the capture of the second frame sets the
    progress to [2 / 1 * 50 = 100] while both frames are PENDING.  On a
    clip of 3 seconds whose first frame is analyzed before the second is
    captured, the effect sets the progress to 100 and the next capture
    sets it back to [2 / 3 * 50]. *)
Theorem progress_reaches_100_early_and_decreases :
  (exists s,
     App.run shortClipCaptured App.init = Some s
     /\ JS.eqb (App.progress s) (JS.ofZ 100) = true
     /\ length (App.frames s) = 2%nat
     /\ forallb App.isPending (App.frames s) = true)
  /\ (exists s s',
        App.run analysisOvertakesCapture App.init = Some s
        /\ App.step (App.Seeked 0 "frame@1") s = Some s'
        /\ JS.eqb (App.progress s) (JS.ofZ 100) = true
        /\ JS.eqb (App.progress s') (JS.Num (100 # 3)) = true
        /\ JS.lt (App.progress s') (App.progress s) = true).
Proof.
  split.
  - eexists. split; [vm_compute; reflexivity|]. by vm_compute.
  - eexists _, _. split; [vm_compute; reflexivity|].
    split; [vm_compute; reflexivity|]. by vm_compute.
Qed.

(** C5, counterexample. The user stops the run while the call of the
    first frame is in flight; the call then answers, and the frame
    becomes COMPLETED with the prompt although the run is cancelled. *)
Lemma stop_discards_result_counterexample :
  let s := after stoppedInFlight in
  let s' := App.handle
              (App.AnalysisSettled 0 (GeminiService.Resolved "a harbour at dusk"))
              s in
  App.run stoppedInFlight App.init = Some s
  /\ App.currentAborted s = true
  /\ App.enabled
       (App.AnalysisSettled 0 (GeminiService.Resolved "a harbour at dusk")) s
     = true
  /\ App.status <$> App.frames s = [App.ANALYZING; App.PENDING]
  /\ App.status <$> App.frames s' = [App.COMPLETED; App.PENDING]
  /\ App.prompt <$> App.frames s' = [Some "a harbour at dusk"%string; None]
  /\ App.frames s' <> App.frames s.
Proof. by vm_compute. Qed.

(** *** The theorems at the example runs *)

Lemma at_most_one_analyzing_witness :
  App.reachable (after firstAnalyzing)
  /\ App.status <$> App.frames (after firstAnalyzing)
     = [App.ANALYZING; App.PENDING]
  /\ (length (List.filter App.isAnalyzing (App.frames (after firstAnalyzing)))
      <= 1)%nat.
Proof.
  assert (Hr : App.reachable (after firstAnalyzing)).
  { apply after_reachable. vm_compute. eexists. reflexivity. }
  split; [exact Hr|]. split; [vm_compute; reflexivity|].
  exact (proj1 (at_most_one_analyzing (after firstAnalyzing) Hr)).
Defined.

Lemma analysis_order_is_fifo_witness :
  App.reachable (after twoCaptured)
  /\ App.timer (after twoCaptured)
     = Some (App.mkFrame 0 0 "frame@0" None App.PENDING None)
  /\ find App.isPending (App.frames (after twoCaptured))
     = Some (App.mkFrame 0 0 "frame@0" None App.PENDING None).
Proof.
  assert (Hr : App.reachable (after twoCaptured)).
  { apply after_reachable. vm_compute. eexists. reflexivity. }
  assert (Ht : App.timer (after twoCaptured)
               = Some (App.mkFrame 0 0 "frame@0" None App.PENDING None))
    by (vm_compute; reflexivity).
  split; [exact Hr|]. split; [exact Ht|].
  exact (proj1 (analysis_order_is_fifo (after twoCaptured) _ Hr Ht)).
Defined.

Lemma status_only_advances_witness :
  App.reachable (after firstAnalyzing)
  /\ advances App.ANALYZING App.COMPLETED.
Proof.
  assert (Hr : App.reachable (after firstAnalyzing)).
  { apply after_reachable. vm_compute. eexists. reflexivity. }
  split; [exact Hr|].
  refine (proj1 (status_only_advances (after firstAnalyzing)
                   (App.AnalysisSettled 0
                      (GeminiService.Resolved "a harbour at dusk"))
                   (App.mkFrame 0 0 "frame@0" None App.ANALYZING None)
                   (App.mkFrame 0 0 "frame@0" (Some "a harbour at dusk"%string)
                      App.COMPLETED None)
                   Hr _ _ _ eq_refl)).
  - vm_compute. reflexivity.
  - vm_compute. apply list_elem_of_here.
  - vm_compute. apply list_elem_of_here.
Defined.

Lemma frame_failure_does_not_abort_run_witness :
  App.reachable (after firstAnalyzing)
  /\ App.enabled
       (App.AnalysisSettled 0 (GeminiService.Rejected "quota exceeded"))
       (after firstAnalyzing) = true.
Proof.
  assert (Hr : App.reachable (after firstAnalyzing)).
  { apply after_reachable. vm_compute. eexists. reflexivity. }
  split; [exact Hr|].
  refine (proj1 (frame_failure_does_not_abort_run (after firstAnalyzing)
                   (App.mkFrame 0 0 "frame@0" None App.ANALYZING None)
                   "quota exceeded" Hr _ _)).
  - vm_compute. apply list_elem_of_here.
  - vm_compute. apply list_elem_of_here.
Defined.

Lemma stop_keeps_inflight_result_witness :
  App.reachable (after firstAnalyzing)
  /\ App.enabled App.ClickStop (after firstAnalyzing) = true
  /\ App.currentAborted (App.handle App.ClickStop (after firstAnalyzing))
     = true.
Proof.
  assert (Hr : App.reachable (after firstAnalyzing)).
  { apply after_reachable. vm_compute. eexists. reflexivity. }
  assert (He : App.enabled App.ClickStop (after firstAnalyzing) = true)
    by (vm_compute; reflexivity).
  split; [exact Hr|]. split; [exact He|].
  exact (proj1 (stop_keeps_inflight_result (after firstAnalyzing) Hr He)).
Defined.

Lemma handleFileSelected_leaves_capture_running_witness :
  let s := after staleCapture in
  let s1 := App.handleFileSelected "other.mp4" "blob:other" s in
  App.reachable s
  /\ App.enabled (App.FileSelected "other.mp4" "blob:other") s = true
  /\ App.captures s !! 0%nat
     = Some (App.AwaitSeeked 0 (JS.Num 3) 1 (JS.Num (3 # 1)) 1 1)
  /\ App.controllers s !! 0%nat = Some false
  /\ App.frames s1 = []
  /\ App.frames (App.seeked 0 "frame@1" s1)
     = [App.mkFrame (App.nextId s) 1 "frame@1" None App.PENDING None].
Proof.
  intros s s1.
  assert (Hr : App.reachable s).
  { apply after_reachable. vm_compute. eexists. reflexivity. }
  assert (He : App.enabled (App.FileSelected "other.mp4" "blob:other") s
               = true) by (vm_compute; reflexivity).
  assert (Htask : App.captures s !! 0%nat
                  = Some (App.AwaitSeeked 0 (JS.Num 3) 1 (JS.Num (3 # 1)) 1 1))
    by (vm_compute; reflexivity).
  assert (Hlive : App.controllers s !! 0%nat = Some false)
    by (vm_compute; reflexivity).
  split; [exact Hr|]. split; [exact He|].
  split; [exact Htask|]. split; [exact Hlive|].
  pose proof (handleFileSelected_leaves_capture_running s 0 0 (JS.Num 3)
                (JS.Num (3 # 1)) 1 1 1 "other.mp4" "blob:other" "frame@1"
                Htask Hlive) as (H1 & _ & _ & _ & _ & _ & H7 & _).
  split; [exact H1 | exact H7].
Defined.

Lemma capture_emits_every_multiple_witness :
  is_Some (App.videoSrc (after clipSelected))
  /\ (0 < 10)%Q
  /\ (1 <= Z.to_nat (Qceiling (10 / inject_Z 3)))%nat.
Proof.
  assert (Hsrc : is_Some (App.videoSrc (after clipSelected)))
    by (vm_compute; eexists; reflexivity).
  assert (HD : (0 < 10)%Q) by (vm_compute; reflexivity).
  split; [exact Hsrc|]. split; [exact HD|].
  refine (proj1 (proj2 (capture_emits_every_multiple (after clipSelected) 10
                          (fun _ => "jpeg"%string) 4 Hsrc HD _))).
  vm_compute. lia.
Defined.

(** * Further properties *)

(** ** The request of the Analysis Client *)

Section DataUrl.

Import GeminiService.

Local Open Scope string_scope.

Lemma prefix_split p s :
  String.prefix p s = true -> s = p ++ dropChars (String.length p) s.
Proof.
  revert s. induction p as [|a p IH]; intros s; [done|].
  destruct s as [|b s]; cbn; [done|].
  destruct (ascii_dec a b) as [->|]; [|done].
  intros H. by rewrite <- (IH s H).
Qed.

Lemma prefix_append p r : String.prefix p (p ++ r) = true.
Proof.
  induction p as [|a p IH]; cbn; [by destruct r|].
  by destruct (ascii_dec a a).
Qed.

Lemma dropChars_append p r : dropChars (String.length p) (p ++ r) = r.
Proof. induction p as [|a p IH]; cbn; [by destruct r | done]. Qed.

Lemma matchDataUrl_cons a alts s :
  matchDataUrl (a :: alts) s
  = if String.prefix (dataUrlPrefix a) s then
      Some (a, dropChars (String.length (dataUrlPrefix a)) s)
    else matchDataUrl alts s.
Proof. reflexivity. Qed.

Lemma matchDataUrl_Some alts s t rest :
  matchDataUrl alts s = Some (t, rest) ->
  t ∈ alts /\ s = dataUrlPrefix t ++ rest.
Proof.
  induction alts as [|a alts IH]; [done|].
  rewrite matchDataUrl_cons.
  destruct (String.prefix (dataUrlPrefix a) s) eqn:Hp.
  - intros [= <- <-]. split; [apply list_elem_of_here|].
    by apply prefix_split.
  - intros [Ht Hs]%IH. split; [by apply list_elem_of_further | done].
Qed.

Lemma matchDataUrl_None alts s :
  matchDataUrl alts s = None ->
  forall t, t ∈ alts -> String.prefix (dataUrlPrefix t) s = false.
Proof.
  induction alts as [|a alts IH]; intros Hm t Ht.
  - by apply elem_of_nil in Ht.
  - rewrite matchDataUrl_cons in Hm.
    destruct (String.prefix (dataUrlPrefix a) s) eqn:Hp; [done|].
    apply elem_of_cons in Ht as [->|Ht]; [done | by apply IH].
Qed.

End DataUrl.

Section Request.

Import GeminiService.

Local Open Scope string_scope.

Lemma matchDataUrl_hit t payload :
  t ∈ subtypes ->
  matchDataUrl subtypes (dataUrlPrefix t ++ payload) = Some (t, payload).
Proof.
  intros Ht. unfold subtypes in *.
  assert (Hhit : forall a alts,
             matchDataUrl (a :: alts) (dataUrlPrefix a ++ payload)
             = Some (a, payload)).
  { intros a alts.
    by rewrite matchDataUrl_cons, prefix_append, dropChars_append. }
  repeat (apply elem_of_cons in Ht as [->|Ht]);
    [| | | | by apply elem_of_nil in Ht].
  - apply Hhit.
  - rewrite matchDataUrl_cons.
    replace (String.prefix (dataUrlPrefix "png") (dataUrlPrefix "jpeg" ++ payload))
      with false by (vm_compute; reflexivity).
    apply Hhit.
  - rewrite !matchDataUrl_cons.
    replace (String.prefix (dataUrlPrefix "png") (dataUrlPrefix "jpg" ++ payload))
      with false by (vm_compute; reflexivity).
    replace (String.prefix (dataUrlPrefix "jpeg") (dataUrlPrefix "jpg" ++ payload))
      with false by (vm_compute; reflexivity).
    by rewrite prefix_append, dropChars_append.
  - rewrite !matchDataUrl_cons.
    replace (String.prefix (dataUrlPrefix "png") (dataUrlPrefix "webp" ++ payload))
      with false by (vm_compute; reflexivity).
    replace (String.prefix (dataUrlPrefix "jpeg") (dataUrlPrefix "webp" ++ payload))
      with false by (vm_compute; reflexivity).
    replace (String.prefix (dataUrlPrefix "jpg") (dataUrlPrefix "webp" ++ payload))
      with false by (vm_compute; reflexivity).
    by rewrite prefix_append, dropChars_append.
Qed.

End Request.

(** X1. A data URL of one of the four subtypes is split exactly: the
    request declares that subtype and carries the payload without the
    prefix, whatever the payload is. *)
Theorem buildRequest_strips_prefix (t payload : string)
    (instructions : option string) (Ht : t ∈ GeminiService.subtypes) :
  let r := GeminiService.buildRequest (dataUrlPrefix t ++ payload)%string
             instructions in
  GeminiService.mimeType r = ("image/" ++ t)%string
  /\ GeminiService.data r = payload.
Proof.
  intros r. subst r. unfold GeminiService.buildRequest.
  rewrite (matchDataUrl_hit t payload Ht). by cbn.
Qed.

Lemma buildRequest_strips_prefix_witness :
  "webp"%string ∈ GeminiService.subtypes
  /\ GeminiService.data
       (GeminiService.buildRequest "data:image/webp;base64,UklGRg=="%string None)
     = "UklGRg=="%string.
Proof.
  assert (Ht : "webp"%string ∈ GeminiService.subtypes).
  { do 3 apply list_elem_of_further. apply list_elem_of_here. }
  split; [exact Ht|].
  exact (proj2 (buildRequest_strips_prefix "webp" "UklGRg==" None Ht)).
Defined.

(** X2. Every request either comes from an image string that starts
    with the data-URL prefix of one of the four subtypes, declares that
    subtype and carries the rest of the string, or carries the image
    string unchanged and declares [image/jpeg]; the extra requirement is
    absent exactly when the instructions are undefined or empty. *)
Theorem buildRequest_cases (base64Image : string)
    (instructions : option string) :
  let r := GeminiService.buildRequest base64Image instructions in
  ((exists t, t ∈ GeminiService.subtypes
              /\ base64Image = (dataUrlPrefix t ++ GeminiService.data r)%string
              /\ GeminiService.mimeType r = ("image/" ++ t)%string)
   \/ (GeminiService.data r = base64Image
       /\ GeminiService.mimeType r = "image/jpeg"%string
       /\ forall t, t ∈ GeminiService.subtypes ->
            String.prefix (dataUrlPrefix t) base64Image = false))
  /\ (GeminiService.extra r = None
      <-> instructions = None \/ instructions = Some EmptyString)
  /\ (forall i, GeminiService.extra r = Some i -> instructions = Some i).
Proof.
  intros r. subst r. unfold GeminiService.buildRequest.
  split; [|split].
  - destruct (GeminiService.matchDataUrl _ _) as [[t rest]|] eqn:Hm; cbn.
    + left. exists t. apply matchDataUrl_Some in Hm as [Ht Hs]. done.
    + right. split; [done|]. split; [done|].
      by apply matchDataUrl_None.
  - cbn. destruct instructions as [[|a i]|]; split; try done; auto.
    + intros [H|H]; discriminate.
  - cbn. destruct instructions as [[|a i]|]; intros j H; try done.
Qed.

(** ** The retry loop *)

Section Retry.

Import GeminiService.

Lemma orElse_nonempty a d : d <> EmptyString -> JS.orElse a d <> EmptyString.
Proof. intros Hd. by destruct a as [[|c s]|]. Qed.

Lemma attempt_nonempty fuel call req retries n ws r :
  attempt fuel call req retries n ws = Some r ->
  match result r with
  | Resolved p => p <> EmptyString
  | Rejected m => m <> EmptyString
  end.
Proof.
  revert retries n ws.
  induction fuel as [|fuel IH]; intros retries n ws; cbn [attempt]; [done|].
  destruct (call n req) as [text|e].
  - intros [= <-]. cbn. by apply orElse_nonempty.
  - destruct (isRateLimit e && (retries <? maxRetries)); [apply IH|].
    intros [= <-]. cbn. by apply orElse_nonempty.
Qed.

Lemma includes_mentions hay needle :
  JS.includes hay needle = true <-> mentions hay needle.
Proof.
  split.
  - induction hay as [|c hay IH]; cbn [JS.includes].
    + rewrite orb_false_r. intros H%prefix_split.
      by exists EmptyString, (dropChars (String.length needle) EmptyString).
    + intros [H%prefix_split | (pre & post & ->)%IH]%orb_true_iff.
      * by exists EmptyString,
          (dropChars (String.length needle) (String c hay)).
      * by exists (String c pre), post.
  - intros (pre & post & ->).
    induction pre as [|c pre IH].
    + cbn [append].
      destruct (needle ++ post)%string eqn:Heq; cbn [JS.includes];
        rewrite <- Heq, prefix_append; done.
    + cbn [append JS.includes]. rewrite IH. apply orb_true_r.
Qed.

End Retry.

(** X3. For every behaviour of the external call [generateImagePrompt]
    ends having made at most 4 calls and waited at most 14 seconds in
    all, and neither the prompt it resolves with nor the message it
    rejects with is empty. *)
Theorem generateImagePrompt_bounded
    (call : nat -> GeminiService.Request -> GeminiService.Outcome)
    (base64Image : string) (instructions : option string) (fuel : nat)
    (Hfuel : (4 <= fuel)%nat) :
  exists r,
    GeminiService.generateImagePrompt fuel call base64Image instructions
    = Some r
    /\ (GeminiService.calls r <= 4)%nat
    /\ foldr Z.add 0 (GeminiService.waits r) <= 14000
    /\ match GeminiService.result r with
       | GeminiService.Resolved p => p <> EmptyString
       | GeminiService.Rejected m => m <> EmptyString
       end.
Proof.
  unfold GeminiService.generateImagePrompt.
  destruct (attempt_ends call
              (GeminiService.buildRequest base64Image instructions) fuel 0)
    as (r & k & Hr & Hk & Hw & Hc); [lia | lia |].
  change (take 0 backoff) with (@nil Z) in Hr. change (Z.of_nat 0) with 0 in Hr.
  exists r. split; [done|]. split; [lia|]. split.
  - rewrite Hw. destruct k as [|[|[|[|k]]]]; cbn; lia.
  - by apply attempt_nonempty in Hr.
Qed.

Lemma generateImagePrompt_bounded_witness :
  exists r,
    GeminiService.generateImagePrompt 4 callTwiceLimited
      "data:image/jpeg;base64,AAAA"%string None = Some r
    /\ (GeminiService.calls r <= 4)%nat.
Proof.
  destruct (generateImagePrompt_bounded callTwiceLimited
              "data:image/jpeg;base64,AAAA"%string None 4 (le_n 4))
    as (r & Hr & Hc & _).
  exists r. split; [exact Hr | exact Hc].
Defined.

(** X4. An error counts as a rate limit exactly when its message
    mentions 429 somewhere, or its status is 429, or its string form
    mentions 429 somewhere. *)
Theorem isRateLimit_iff (e : GeminiService.JsError) :
  GeminiService.isRateLimit e = true
  <-> (exists m, GeminiService.message e = Some m /\ mentions m "429")
      \/ GeminiService.status e = Some 429
      \/ mentions (GeminiService.toString e) "429".
Proof.
  unfold GeminiService.isRateLimit. rewrite !orb_true_iff.
  assert (Hm : from_option (fun m => JS.includes m "429") false
                 (GeminiService.message e) = true
               <-> exists m, GeminiService.message e = Some m
                             /\ mentions m "429").
  { destruct (GeminiService.message e) as [m|]; cbn [from_option].
    - rewrite includes_mentions. split; [eauto|].
      by intros (m' & [= <-] & H).
    - split; [done|]. by intros (m' & ? & _). }
  assert (Hs : from_option (Z.eqb 429) false (GeminiService.status e) = true
               <-> GeminiService.status e = Some 429).
  { destruct (GeminiService.status e) as [st|]; cbn [from_option]; [|done].
    rewrite Z.eqb_eq. split; [by intros <- | by intros [= ->]]. }
  rewrite Hm, Hs, includes_mentions. tauto.
Qed.

(** ** The shape of the reachable states *)

Section ShapeInvariant.

Import App.

#[local] Arguments updateFrame : simpl never.

Lemma reconcile_video s :
  videoFile (reconcile s) = videoFile s /\ videoSrc (reconcile s) = videoSrc s
  /\ config (reconcile s) = config s.
Proof. unfold reconcile. by repeat case_match. Qed.

Lemma commit_video s :
  videoFile (commit s) = videoFile s /\ videoSrc (commit s) = videoSrc s
  /\ config (commit s) = config s.
Proof. unfold commit. apply (reconcile_video (setTimer None s)). Qed.

(** Frames that are neither PENDING nor ANALYZING are all done. *)
Lemma all_done fs :
  find isPending fs = None -> existsb isAnalyzing fs = false ->
  forallb isDone fs = true.
Proof.
  intros Hp Ha. apply forallb_forall. intros f Hf.
  pose proof (find_none _ _ Hp f Hf) as Hnp.
  apply list_elem_of_In in Hf.
  pose proof (no_analyzing _ _ Ha Hf) as Hna.
  unfold isPending in Hnp. unfold isDone.
  by destruct (status f).
Qed.

Lemma reconcile_progress s :
  progress (reconcile s) = progress s
  \/ (progress (reconcile s) = JS.ofZ 100
      /\ isProcessing s = true /\ isProcessing (reconcile s) = false
      /\ frames s <> [] /\ forallb isDone (frames s) = true).
Proof.
  unfold reconcile.
  destruct (isProcessing s) eqn:Hp; cbn [negb]; [|by left].
  destruct (currentAborted s); [by left|].
  destruct (existsb isAnalyzing (frames s)) eqn:Ha; [by left|].
  destruct (find isPending (frames s)) eqn:Hf; [by left|].
  rewrite (all_done _ Hf Ha), andb_true_r.
  destruct (0 <? length (frames s))%nat eqn:Hlen; [|by left].
  right. do 3 (split; [done|]). split; [|done].
  intros Hnil. rewrite Hnil in Hlen. done.
Qed.

Lemma progressOk_100 : progressOk (JS.ofZ 100).
Proof. done. Qed.

Lemma progressOk_0 : progressOk (JS.ofZ 0).
Proof. done. Qed.

Lemma commit_PreShape s : PreShape s -> PreShape (commit s).
Proof.
  intros [Hfields Hts Han Hvid Hlive Hint Htasks Hprog].
  destruct (commit_video s) as (Hvf & Hvs & Hcfg).
  split; rewrite ?commit_frames, ?commit_inflight, ?commit_captures,
    ?Hvf, ?Hvs, ?Hcfg, ?commit_currentAborted; try done.
  - intros Hp. apply Hlive. by apply reconcile_isProcessing in Hp.
  - unfold commit.
    destruct (reconcile_progress (setTimer None s)) as [-> | (-> & _)];
      [done | apply progressOk_100].
Qed.

Lemma commit_Shape s : PreShape s -> Shape (commit s).
Proof.
  intros HP. split; [by apply commit_PreShape|].
  intros Hp Ha g Hg. rewrite commit_frames in Ha, Hg.
  apply reconcile_isProcessing in Hp. cbn in Hp.
  destruct HP as [_ _ _ _ Hlive _ _ _].
  destruct (Hlive Hp) as [Hab _].
  by destruct (commit_schedules s g Hp Hab Ha Hg).
Qed.

Lemma elem_of_removeFirst_ne x y l :
  y ∈ l -> y <> x -> y ∈ removeFirst x l.
Proof.
  induction l as [|z l IH]; cbn; [done|].
  intros [Heq|Hy]%elem_of_cons Hne.
  - subst z. destruct (Nat.eqb_spec y x); [done | apply list_elem_of_here].
  - destruct (z =? x)%nat; [done|]. apply list_elem_of_further. auto.
Qed.

(** The progress the capture loop sets is a number and not negative. *)
Lemma capture_progress_ok d i cnt time :
  1 <= i -> 0 <= cnt -> 0 <= time -> JS.lt (JS.ofZ time) d = true ->
  progressOk
    (JS.mul (JS.div (JS.ofZ (cnt + 1)) (JS.floor (JS.div d (JS.ofZ i))))
       (JS.ofZ 50)).
Proof.
  intros Hi Hcnt Htime Hlt.
  assert (Hi' : (0 < inject_Z i)%Q).
  { change 0%Q with (inject_Z 0). rewrite <- Zlt_Qlt. lia. }
  assert (Hc' : (0 < inject_Z (cnt + 1))%Q).
  { change 0%Q with (inject_Z 0). rewrite <- Zlt_Qlt. lia. }
  assert (Hiz : Qeq_bool (inject_Z i) 0 = false).
  { apply not_true_is_false. intros H%Qeq_bool_iff.
    rewrite H in Hi'. by apply Qlt_irrefl in Hi'. }
  assert (Hcz : Qeq_bool (inject_Z (cnt + 1)) 0 = false).
  { apply not_true_is_false. intros H%Qeq_bool_iff.
    rewrite H in Hc'. by apply Qlt_irrefl in Hc'. }
  assert (Hcle : Qle_bool 0 (inject_Z (cnt + 1)) = true).
  { apply Qle_bool_iff. by apply Qlt_le_weak. }
  destruct d as [D| | |]; try done.
  - apply lt_ofZ_Num in Hlt.
    assert (HD : (0 < D)%Q).
    { eapply Qle_lt_trans; [|exact Hlt].
      change 0%Q with (inject_Z 0). rewrite <- Zle_Qle. lia. }
    unfold JS.ofZ, JS.div at 2. rewrite Hiz. cbn [JS.floor].
    set (fl := Qfloor (D / inject_Z i)).
    assert (Hfl : 0 <= fl).
    { subst fl. rewrite <- (Qfloor_Z 0). apply Qfloor_resp_le.
      apply Qle_shift_div_l; [done|]. rewrite Qmult_0_l.
      by apply Qlt_le_weak. }
    unfold JS.div. destruct (Qeq_bool (inject_Z fl) 0) eqn:Hflz.
    + rewrite Hcz, Hcle. done.
    + cbn [JS.mul progressOk].
      assert (0 < inject_Z fl)%Q as Hflpos.
      { change 0%Q with (inject_Z 0). rewrite <- Zlt_Qlt.
        assert (fl <> 0); [|lia]. intros ->. done. }
      apply Qmult_le_0_compat; [|done].
      apply Qle_shift_div_l; [done|]. rewrite Qmult_0_l.
      by apply Qlt_le_weak.
  - unfold JS.ofZ, JS.div at 2.
    replace (Qle_bool 0 (inject_Z i)) with true
      by (symmetry; apply Qle_bool_iff; by apply Qlt_le_weak).
    done.
Qed.

(** *** Every event that can happen keeps the shape *)

Lemma handleFileSelected_Shape file url s :
  Shape s -> Shape (handleFileSelected file url s).
Proof.
  intros [[Hfields Hts Han Hvid Hlive Hint Htasks Hprog] _].
  apply commit_Shape. split; cbn; try done.
  - intros f Hf. by apply elem_of_nil in Hf.
  - intros f Hf. by apply elem_of_nil in Hf.
  - intros f Hf. by apply elem_of_nil in Hf.
Qed.

Lemma reset_Shape s : Shape s -> Shape (reset s).
Proof.
  intros [[Hfields Hts Han Hvid Hlive Hint Htasks Hprog] _].
  apply commit_Shape. unfold abortCurrent. cbn.
  destruct (abortControllerRef s); split; cbn; try done.
  all: intros f Hf; by apply elem_of_nil in Hf.
Qed.

Lemma startAnalysis_Shape ctx s : Shape s -> Shape (startAnalysis ctx s).
Proof.
  intros HS. unfold startAnalysis.
  destruct (videoSrc s) as [src|] eqn:Hsrc; [|done].
  destruct HS as [[Hfields Hts Han Hvid Hlive Hint Htasks Hprog] _].
  assert (Hfile : is_Some (videoFile s)) by (apply Hvid; by eexists).
  assert (Hfresh : default false
                     ((controllers s ++ [false]) !! length (controllers s))
                   = false).
  { by rewrite (list_lookup_middle (controllers s) [] false). }
  apply commit_Shape. destruct ctx; split; cbn; try done.
  all: try (intros f Hf; by apply elem_of_nil in Hf).
  intros k t [Hk | [_ Hk]]%lookup_app_Some; [by apply (Htasks k)|].
  destruct (k - length (captures s))%nat; [|done].
  by injection Hk as <-.
Qed.

Lemma stopAnalysis_Shape s : Shape s -> Shape (stopAnalysis s).
Proof.
  intros [[Hfields Hts Han Hvid Hlive Hint Htasks Hprog] _].
  unfold stopAnalysis.
  assert (PreShape (setIsProcessing false (abortCurrent s))) as HP.
  { unfold abortCurrent. destruct (abortControllerRef s); by split. }
  destruct (isProcessing s); [by apply commit_Shape|].
  split; [done|]. intros Hp. revert Hp. unfold abortCurrent.
  by destruct (abortControllerRef s).
Qed.

Lemma changeInterval_Shape parsed s : Shape s -> Shape (changeInterval parsed s).
Proof.
  intros [[Hfields Hts Han Hvid Hlive Hint Htasks Hprog] Hsched].
  split; [split; cbn; try done|done].
  by destruct parsed as [[]|].
Qed.

Lemma loopHead_taskOk c d i total cnt time s :
  1 <= i -> 0 <= cnt -> time = cnt * i ->
  total = JS.floor (JS.div d (JS.ofZ i)) ->
  taskOk (loopHead c d i total cnt time s).
Proof.
  intros Hi Hcnt Htime Htotal. unfold loopHead.
  destruct (JS.lt (JS.ofZ time) d) eqn:Hlt; [|done].
  by destruct (aborted c s).
Qed.

Lemma metadataLoaded_Shape task d s :
  Shape s -> Shape (metadataLoaded task d s).
Proof.
  intros HS. unfold metadataLoaded.
  destruct (captures s !! task) as [[c cfg| |]|] eqn:Htask; try done.
  destruct HS as [[Hfields Hts Han Hvid Hlive Hint Htasks Hprog] Hsched].
  split; [split; cbn; try done|done].
  intros k t [(_ & <- & _) | [_ Hk]]%list_lookup_insert_Some;
    [|by apply (Htasks k)].
  apply loopHead_taskOk; [lia | lia | lia | done].
Qed.

Lemma seeked_Shape task url s : Shape s -> Shape (seeked task url s).
Proof.
  intros HS. unfold seeked.
  destruct (captures s !! task) as [[|c d i total cnt t|]|] eqn:Htask;
    try done.
  destruct HS as [[Hfields Hts Han Hvid Hlive Hint Htasks Hprog] _].
  destruct (Htasks task _ Htask) as (Hi & Hcnt & Ht & Hlt & Htotal).
  apply commit_Shape. split; cbn; try done.
  - intros f [Hf | ->%list_elem_of_singleton]%elem_of_app; [auto | done].
  - intros f [Hf | ->%list_elem_of_singleton]%elem_of_app; [auto|].
    cbn. nia.
  - intros f [Hf | ->%list_elem_of_singleton]%elem_of_app; [auto | done].
  - intros k t' [(_ & <- & _) | [_ Hk]]%list_lookup_insert_Some;
      [|by apply (Htasks k)].
    apply loopHead_taskOk; [lia | lia | lia | done].
  - rewrite Htotal.
    apply (capture_progress_ok d i cnt t); [done | done | nia | done].
Qed.

Lemma timerFired_Shape s : Inv s -> Shape s -> Shape (timerFired s).
Proof.
  intros [[Hnd _ _ _ _ _ _] HT] HS. unfold timerFired.
  destruct (timer s) as [tf|] eqn:Ht; [|done].
  destruct (HT tf Ht) as (Hfind & _).
  apply find_pending in Hfind as [Htf Hst].
  destruct HS as [[Hfields Hts Han Hvid Hlive Hint Htasks Hprog] _].
  apply commit_Shape. split; cbn; try done.
  - intros f' (f & Hf & ->)%elem_of_updateFrame.
    destruct (Nat.eqb_spec (id f) (id tf)) as [Heq|Hne]; [|auto].
    assert (f = tf) as -> by by apply (same_id_same_frame (frames s)).
    pose proof (Hfields tf Htf) as Hm. unfold fieldsMatch in *.
    by rewrite Hst in Hm.
  - intros f' (f & Hf & ->)%elem_of_updateFrame.
    destruct (id f =? id tf)%nat; cbn; auto.
  - intros f' (f & Hf & ->)%elem_of_updateFrame Hst'.
    apply elem_of_app.
    destruct (Nat.eqb_spec (id f) (id tf)) as [Heq|Hne].
    + right. cbn. rewrite Heq. apply list_elem_of_here.
    + left. auto.
Qed.

Lemma processFrameSettle_Shape fid r s :
  Inv s -> Shape s -> fid ∈ inflight s ->
  Shape (processFrameSettle fid r s).
Proof.
  intros [[_ _ _ _ Hia _ _] _] HS Hfid.
  destruct HS as [[Hfields Hts Han Hvid Hlive Hint Htasks Hprog] _].
  apply commit_Shape. split; cbn; try done.
  - intros f' (f & Hf & ->)%elem_of_updateFrame.
    destruct (Nat.eqb_spec (id f) fid) as [Heq|Hne]; [|auto].
    pose proof (Hfields f Hf) as Hm. unfold fieldsMatch in *.
    rewrite (Hia f Hf) in Hm by by rewrite Heq.
    destruct Hm as [Hp He]. destruct r; cbn; by rewrite ?Hp, ?He.
  - intros f' (f & Hf & ->)%elem_of_updateFrame.
    destruct (id f =? fid)%nat; [destruct r|]; cbn; auto.
  - intros f' (f & Hf & ->)%elem_of_updateFrame Hst'.
    destruct (Nat.eqb_spec (id f) fid) as [Heq|Hne].
    + destruct (applyResult_status r f); congruence.
    + apply elem_of_removeFirst_ne; auto.
Qed.

Lemma init_Shape : Shape init.
Proof.
  split; [split; cbn; try done|done].
  all: intros f Hf; by apply elem_of_nil in Hf.
Qed.

Lemma handle_Shape e s :
  Inv s -> Shape s -> enabled e s = true -> Shape (handle e s).
Proof.
  intros HI HS He. destruct e; cbn [handle].
  - by apply handleFileSelected_Shape.
  - by apply reset_Shape.
  - by apply startAnalysis_Shape.
  - by apply stopAnalysis_Shape.
  - by apply changeInterval_Shape.
  - by apply metadataLoaded_Shape.
  - by apply seeked_Shape.
  - by apply timerFired_Shape.
  - apply processFrameSettle_Shape; [done..|].
    cbn [enabled] in He.
    apply existsb_exists in He as (j & Hj & ->%Nat.eqb_eq).
    by apply list_elem_of_In.
Qed.

Lemma run_Shape trace s s' :
  Inv s -> Shape s -> run trace s = Some s' -> Shape s'.
Proof.
  revert s. induction trace as [|e trace IH]; cbn; intros s HI HS.
  - by intros [= <-].
  - unfold step. destruct (enabled e s) eqn:He; [|done].
    apply IH; [by apply handle_Inv | by apply handle_Shape].
Qed.

Lemma reachable_Shape s : reachable s -> Shape s.
Proof.
  intros [trace Hrun].
  exact (run_Shape trace init s init_Inv init_Shape Hrun).
Qed.

End ShapeInvariant.

Section Completion.

Import App.

#[local] Arguments updateFrame : simpl never.

Lemma done_not_waiting fs :
  forallb isDone fs = true ->
  existsb isAnalyzing fs = false /\ find isPending fs = None.
Proof.
  induction fs as [|f fs IH]; cbn; [done|].
  intros [Hf Hfs]%andb_true_iff. destruct (IH Hfs) as [-> ->].
  unfold isDone, isAnalyzing, isPending in *. by destruct (status f).
Qed.

(** On a run that is on with every frame done the effect ends the run. *)
Lemma commit_completes s :
  isProcessing s = true -> currentAborted s = false ->
  frames s <> [] -> forallb isDone (frames s) = true ->
  isProcessing (commit s) = false /\ progress (commit s) = JS.ofZ 100
  /\ timer (commit s) = None.
Proof.
  intros Hp Hab Hne Hdone. unfold commit, reconcile.
  change (isProcessing (setTimer None s)) with (isProcessing s).
  change (currentAborted (setTimer None s)) with (currentAborted s).
  change (frames (setTimer None s)) with (frames s).
  destruct (done_not_waiting _ Hdone) as [Ha Hf].
  rewrite Hp, Hab, Ha, Hf, Hdone. cbn [negb].
  destruct (frames s); done.
Qed.

Lemma stopAnalysis_captures s :
  captures (stopAnalysis s) = captures s
  /\ nextId (stopAnalysis s) = nextId s
  /\ controllers (stopAnalysis s)
     = from_option (fun c => <[c := true]> (controllers s)) (controllers s)
         (abortControllerRef s).
Proof.
  unfold stopAnalysis, abortCurrent.
  destruct (isProcessing s);
    rewrite ?commit_captures, ?commit_nextId, ?commit_controllers;
    by destruct (abortControllerRef s).
Qed.

End Completion.

(** X5. In every reachable state the result fields of a frame go with
    its status: a PENDING or ANALYZING frame has neither prompt nor error
    message, a COMPLETED frame has a prompt and no error message, an
    ERROR frame has an error message and no prompt. *)
Theorem frame_fields_match_status (s : App.State) (f : App.VideoFrame)
    (Hs : App.reachable s) (Hf : f ∈ App.frames s) :
  match App.status f with
  | App.PENDING | App.ANALYZING =>
      App.prompt f = None /\ App.errorMessage f = None
  | App.COMPLETED => is_Some (App.prompt f) /\ App.errorMessage f = None
  | App.ERROR => App.prompt f = None /\ is_Some (App.errorMessage f)
  end.
Proof.
  destruct (reachable_Shape s Hs) as [[Hfields _ _ _ _ _ _ _] _].
  exact (Hfields f Hf).
Qed.

(** X6. In every reachable state a frame of the list is ANALYZING
    exactly when a call for it is in flight: no frame stays ANALYZING
    without a call that will settle it, and no call in flight belongs to
    a frame of the list in another status. *)
Theorem analyzing_iff_in_flight (s : App.State) (f : App.VideoFrame)
    (Hs : App.reachable s) (Hf : f ∈ App.frames s) :
  App.status f = App.ANALYZING <-> App.id f ∈ App.inflight s.
Proof.
  destruct (reachable_Shape s Hs) as [[_ _ Han _ _ _ _ _] _].
  destruct (reachable_Inv s Hs) as [[_ _ _ _ Hia _ _] _].
  split; [by apply Han | by apply Hia].
Qed.

(** X7. The pipeline does not stall: in every reachable state with the
    run on, no frame ANALYZING and some frame PENDING, the effect's timer
    is set on the first PENDING frame (and the current controller is not
    aborted). *)
Theorem pending_frame_is_scheduled (s : App.State) (g : App.VideoFrame)
    (Hs : App.reachable s) (Hp : App.isProcessing s = true)
    (Hnone : existsb App.isAnalyzing (App.frames s) = false)
    (Hg : g ∈ App.frames s) (Hst : App.status g = App.PENDING) :
  exists g0,
    find App.isPending (App.frames s) = Some g0
    /\ App.timer s = Some g0
    /\ App.enabled App.TimerFired s = true
    /\ App.currentAborted s = false.
Proof.
  destruct (reachable_Shape s Hs) as [[_ _ _ _ Hlive _ _ _] Hsched].
  destruct (find_pending_exists _ g Hg Hst) as [g0 Hfind].
  exists g0. split; [done|].
  pose proof (Hsched Hp Hnone g0 Hfind) as Ht.
  split; [done|]. split; [|by destruct (Hlive Hp)].
  cbn [App.enabled]. rewrite Ht. by apply bool_decide_eq_true.
Qed.

(** X9. When the call of the only frame that is not done settles while
    the run is on, the effect ends the run: the processing flag is
    cleared, the progress is 100, no timer is left and every frame is
    done. *)
Theorem last_result_completes_run (s : App.State) (f : App.VideoFrame)
    (r : GeminiService.PromptResult)
    (Hs : App.reachable s) (Hp : App.isProcessing s = true)
    (Hf : f ∈ App.frames s) (Hin : App.id f ∈ App.inflight s)
    (Hrest : forall g, g ∈ App.frames s -> g <> f -> App.isDone g = true) :
  let s' := App.handle (App.AnalysisSettled (App.id f) r) s in
  App.isProcessing s' = false
  /\ App.progress s' = JS.ofZ 100
  /\ App.timer s' = None
  /\ forallb App.isDone (App.frames s') = true.
Proof.
  intros s'. pose proof (reachable_Inv s Hs) as HI.
  destruct (reachable_Shape s Hs) as [[_ _ _ _ Hlive _ _ _] _].
  destruct (Hlive Hp) as [Hab _].
  destruct (inflight_frame_split s f HI Hf Hin)
    as (pre & post & Hfs & Hst & Hids & _).
  set (s0 := App.setInflight (App.removeFirst (App.id f) (App.inflight s))
               (App.setFrames
                  (App.updateFrame (App.id f) (App.applyResult r)
                     (App.frames s)) s)).
  assert (Hfr0 : App.frames s0 = pre ++ App.applyResult r f :: post).
  { subst s0. cbn [App.frames App.setInflight App.setFrames].
    rewrite Hfs. by apply updateFrame_split. }
  assert (Hdone : forallb App.isDone (App.frames s0) = true).
  { rewrite Hfr0. apply forallb_forall. intros g Hg.
    apply list_elem_of_In in Hg.
    apply elem_of_app in Hg as [Hg | [->|Hg]%elem_of_cons].
    - apply Hrest; [rewrite Hfs; apply elem_of_app; by left|].
      intros ->. apply (Hids f); [apply elem_of_app; by left | done].
    - apply isDone_true. apply applyResult_status.
    - apply Hrest.
      + rewrite Hfs. apply elem_of_app. right. by apply list_elem_of_further.
      + intros ->. apply (Hids f); [apply elem_of_app; by right | done]. }
  assert (Hne : App.frames s0 <> []).
  { rewrite Hfr0. by destruct pre. }
  destruct (commit_completes s0 Hp Hab Hne Hdone) as (H1 & H2 & H3).
  subst s'. cbn [App.handle]. unfold App.processFrameSettle. fold s0.
  by rewrite commit_frames.
Qed.

(** X10. The effect changes the progress only by setting it to 100, and
    only when the run is on, the list is not empty and every frame is
    done: its branch for the second half of the progress,
    [50 + completedCount / total * 50], is never taken. *)
Theorem effect_sets_progress_only_to_100 (s : App.State) :
  App.progress (App.commit s) = App.progress s
  \/ (App.progress (App.commit s) = JS.ofZ 100
      /\ App.isProcessing s = true
      /\ App.isProcessing (App.commit s) = false
      /\ App.frames s <> []
      /\ forallb App.isDone (App.frames s) = true).
Proof.
  unfold App.commit.
  destruct (reconcile_progress (App.setTimer None s)) as [H|H];
    [by left | by right].
Qed.

(** X13. While the run is on a file is selected and the current
    controller is not aborted: the stop button can be clicked, and the
    effect's test of the abort signal never fires. *)
Theorem stop_available_while_processing (s : App.State)
    (Hs : App.reachable s) (Hp : App.isProcessing s = true) :
  App.enabled App.ClickStop s = true
  /\ App.currentAborted s = false
  /\ is_Some (App.videoSrc s).
Proof.
  destruct (reachable_Shape s Hs) as [[_ _ _ Hvid Hlive _ _ _] _].
  destruct (Hlive Hp) as [Hab Hfile].
  split; [|split; [done | by apply Hvid]].
  cbn [App.enabled]. rewrite Hp, andb_true_r. by apply bool_decide_eq_true.
Qed.

(** X12. Whatever was typed as the interval, in every reachable state
    the configured interval is not 0, a capture loop that waits for its
    seek has an interval of at least 1 and a time that is its count of
    captured frames times the interval, below the duration, and no
    frame has a negative timestamp. *)
Theorem capture_loop_locals (s : App.State) (Hs : App.reachable s) :
  App.interval (App.config s) <> 0
  /\ (forall k c d i total cnt time,
        App.captures s !! k = Some (App.AwaitSeeked c d i total cnt time) ->
        1 <= i /\ 0 <= cnt /\ time = cnt * i
        /\ JS.lt (JS.ofZ time) d = true
        /\ total = JS.floor (JS.div d (JS.ofZ i)))
  /\ (forall f, f ∈ App.frames s -> 0 <= App.timestamp f).
Proof.
  destruct (reachable_Shape s Hs) as [[_ Hts _ _ _ Hint Htasks _] _].
  split; [done|]. split; [|done].
  intros k c d i total cnt time Hk. exact (Htasks k _ Hk).
Qed.

(** X16. In every reachable state the progress is a number that is not
    negative, or [Infinity]: it is never [NaN], negative or
    [-Infinity]. *)
Theorem progress_never_nan_or_negative (s : App.State)
    (Hs : App.reachable s) :
  match App.progress s with
  | JS.Num q => (0 <= q)%Q
  | JS.PosInf => True
  | JS.NegInf | JS.NaN => False
  end.
Proof.
  destruct (reachable_Shape s Hs) as [[_ _ _ _ _ _ _ Hprog] _].
  unfold progressOk in Hprog. by destruct (App.progress s).
Qed.

(** X8. An event never reorders the frames, never removes one alone and
    never changes an identifier, a timestamp or an image: after any
    event the list is empty, or has the same identifiers, timestamps and
    images in the same order, or is the old list with one new PENDING
    frame at its end. *)
Theorem frames_never_reordered (s : App.State) (e : App.Event) :
  let fs := App.frames s in
  let fs' := App.frames (App.handle e s) in
  fs' = []
  \/ (App.id <$> fs' = App.id <$> fs
      /\ App.timestamp <$> fs' = App.timestamp <$> fs
      /\ App.imageUrl <$> fs' = App.imageUrl <$> fs)
  \/ (exists t url,
        fs' = fs ++ [App.mkFrame (App.nextId s) t url None App.PENDING None]).
Proof.
  intros fs fs'. subst fs fs'.
  assert (Hupd : forall fid g,
             (forall f, App.id (g f) = App.id f
                        /\ App.timestamp (g f) = App.timestamp f
                        /\ App.imageUrl (g f) = App.imageUrl f) ->
             App.id <$> App.updateFrame fid g (App.frames s)
             = App.id <$> App.frames s
             /\ App.timestamp <$> App.updateFrame fid g (App.frames s)
                = App.timestamp <$> App.frames s
             /\ App.imageUrl <$> App.updateFrame fid g (App.frames s)
                = App.imageUrl <$> App.frames s).
  { intros fid g Hg. unfold App.updateFrame.
    rewrite <- !list_fmap_compose.
    repeat split; apply list_fmap_ext; intros _ f _; cbn;
      destruct (App.id f =? fid)%nat; try done; by destruct (Hg f) as (?&?&?). }
  destruct (handle_frames e s) as [e|e|e t url|e tf Ht|fid r].
  - by left.
  - right. by left.
  - right. right. by exists t, url.
  - right. left. by apply Hupd.
  - right. left. apply Hupd. intros f. by destruct r.
Qed.


(** ** The drawing of a frame *)


(** ** The time label of a frame card *)

Section TimeLabel.

Import FrameCard.

Local Open Scope string_scope.

Lemma to_int_nonnil z :
  Z.to_int z <> Decimal.Pos Decimal.Nil /\ Z.to_int z <> Decimal.Neg Decimal.Nil.
Proof.
  destruct z as [|p|p]; cbn; split; try discriminate.
  - intros [= H]. by apply Unsigned.to_uint_nonnil in H.
  - intros [= H]. by apply Unsigned.to_uint_nonnil in H.
Qed.

Lemma toString_inj a b : toString a = toString b -> a = b.
Proof.
  unfold toString. intros H.
  apply (f_equal NilZero.int_of_string) in H.
  destruct (to_int_nonnil a) as [Ha1 Ha2], (to_int_nonnil b) as [Hb1 Hb2].
  rewrite !NilZero.isi in H by done.
  injection H as H. apply (f_equal Z.of_int) in H.
  by rewrite !DecimalZ.of_to in H.
Qed.

Lemma length_append_string (x y : string) :
  String.length (x ++ y) = (String.length x + String.length y)%nat.
Proof. induction x as [|c x IH]; cbn; [done | by rewrite IH]. Qed.

(** Two strings that end in fields of the same length agree field by
    field. *)
Lemma append_same_suffix_length (x x' y y' : string) :
  x ++ y = x' ++ y' -> String.length y = String.length y' ->
  x = x' /\ y = y'.
Proof.
  revert x'. induction x as [|c x IH]; intros [|c' x'] H Hlen; cbn in H.
  - done.
  - exfalso. rewrite H in Hlen. cbn in Hlen.
    rewrite length_append_string in Hlen. lia.
  - exfalso. rewrite <- H in Hlen. cbn in Hlen.
    rewrite length_append_string in Hlen. lia.
  - injection H as -> H. destruct (IH x' H Hlen) as [-> ->]. done.
Qed.

Lemma pad_two_digits n :
  0 <= n < 60 -> padStart 2 "0" (toString n) = twoDigits n.
Proof.
  intros Hn. destruct n as [|p|p]; [reflexivity | | lia].
  repeat (destruct p as [p|p|]; try lia; try reflexivity).
Qed.

Lemma digit_inj n m : 0 <= n < 10 -> 0 <= m < 10 -> digit n = digit m -> n = m.
Proof.
  intros Hn Hm H. unfold digit in H.
  apply (f_equal nat_of_ascii) in H.
  rewrite !nat_ascii_embedding in H by lia. lia.
Qed.

Lemma twoDigits_inj n m :
  0 <= n < 60 -> 0 <= m < 60 -> twoDigits n = twoDigits m -> n = m.
Proof.
  intros Hn Hm [= H1 H0].
  apply digit_inj in H1; [|split; [apply Z.div_pos; lia | apply Z.div_lt_upper_bound; lia]..].
  apply digit_inj in H0; [|apply Z.mod_pos_bound; lia..].
  rewrite (Z.div_mod n 10), (Z.div_mod m 10) by lia. lia.
Qed.

End TimeLabel.

(** X15. For a whole, non-negative number of seconds the time label is
    the minutes, a colon and the seconds below 60 on exactly two digits,
    and two different timestamps never get the same label. *)
Theorem formatTime_label (a b : Z) (Ha : 0 <= a) (Hb : 0 <= b) :
  FrameCard.formatTime a
  = (FrameCard.toString (a / 60) ++ ":" ++ twoDigits (a mod 60))%string
  /\ 0 <= a mod 60 < 60
  /\ a = 60 * (a / 60) + a mod 60
  /\ (FrameCard.formatTime a = FrameCard.formatTime b -> a = b).
Proof.
  assert (Hfmt : forall t, 0 <= t ->
            FrameCard.formatTime t
            = (FrameCard.toString (t / 60) ++ ":" ++ twoDigits (t mod 60))%string).
  { intros t Ht. unfold FrameCard.formatTime.
    rewrite Z.rem_mod_nonneg by lia.
    rewrite pad_two_digits; [done | apply Z.mod_pos_bound; lia]. }
  split; [by apply Hfmt|]. split; [apply Z.mod_pos_bound; lia|].
  split; [apply Z.div_mod; lia|].
  rewrite !Hfmt by done. intros H.
  apply append_same_suffix_length in H as [Hm Hs]; [|done].
  apply toString_inj in Hm.
  injection Hs as Hs1 Hs0.
  assert (a mod 60 = b mod 60) as Hsec.
  { apply twoDigits_inj; [apply Z.mod_pos_bound; lia..|].
    unfold twoDigits. by rewrite Hs1, Hs0. }
  rewrite (Z.div_mod a 60), (Z.div_mod b 60) by lia. lia.
Qed.

Lemma formatTime_label_witness :
  0 <= 125 /\ 0 <= 65
  /\ FrameCard.formatTime 125 = "2:05"%string
  /\ (FrameCard.formatTime 125 = FrameCard.formatTime 65 -> 125 = 65).
Proof.
  assert (Ha : 0 <= 125) by lia. assert (Hb : 0 <= 65) by lia.
  split; [exact Ha|]. split; [exact Hb|].
  destruct (formatTime_label 125 65 Ha Hb) as (H1 & _ & _ & H4).
  split; [exact H1 | exact H4].
Defined.

(** *** The further properties at the example runs *)

Lemma frame_fields_match_status_witness :
  let f := App.mkFrame 0 0 "frame@0" (Some "a harbour at dusk"%string)
             App.COMPLETED None in
  App.reachable (after analysisOvertakesCapture)
  /\ f ∈ App.frames (after analysisOvertakesCapture)
  /\ is_Some (App.prompt f) /\ App.errorMessage f = None.
Proof.
  intros f.
  assert (Hr : App.reachable (after analysisOvertakesCapture)).
  { apply after_reachable. vm_compute. eexists. reflexivity. }
  assert (Hf : f ∈ App.frames (after analysisOvertakesCapture)).
  { vm_compute. apply list_elem_of_here. }
  split; [exact Hr|]. split; [exact Hf|].
  exact (frame_fields_match_status (after analysisOvertakesCapture) f Hr Hf).
Defined.

Lemma analyzing_iff_in_flight_witness :
  let f := App.mkFrame 0 0 "frame@0" None App.ANALYZING None in
  App.reachable (after firstAnalyzing)
  /\ f ∈ App.frames (after firstAnalyzing)
  /\ App.id f ∈ App.inflight (after firstAnalyzing).
Proof.
  intros f.
  assert (Hr : App.reachable (after firstAnalyzing)).
  { apply after_reachable. vm_compute. eexists. reflexivity. }
  assert (Hf : f ∈ App.frames (after firstAnalyzing)).
  { vm_compute. apply list_elem_of_here. }
  split; [exact Hr|]. split; [exact Hf|].
  exact (proj1 (analyzing_iff_in_flight (after firstAnalyzing) f Hr Hf) eq_refl).
Defined.

Lemma pending_frame_is_scheduled_witness :
  let g := App.mkFrame 1 3 "frame@3" None App.PENDING None in
  App.reachable (after twoCaptured)
  /\ App.isProcessing (after twoCaptured) = true
  /\ existsb App.isAnalyzing (App.frames (after twoCaptured)) = false
  /\ g ∈ App.frames (after twoCaptured)
  /\ exists g0, App.timer (after twoCaptured) = Some g0.
Proof.
  intros g.
  assert (Hr : App.reachable (after twoCaptured)).
  { apply after_reachable. vm_compute. eexists. reflexivity. }
  assert (Hp : App.isProcessing (after twoCaptured) = true)
    by (vm_compute; reflexivity).
  assert (Hn : existsb App.isAnalyzing (App.frames (after twoCaptured)) = false)
    by (vm_compute; reflexivity).
  assert (Hg : g ∈ App.frames (after twoCaptured)).
  { vm_compute. apply list_elem_of_further, list_elem_of_here. }
  split; [exact Hr|]. split; [exact Hp|]. split; [exact Hn|].
  split; [exact Hg|].
  destruct (pending_frame_is_scheduled (after twoCaptured) g Hr Hp Hn Hg eq_refl)
    as (g0 & _ & Ht & _).
  exists g0. exact Ht.
Defined.

Lemma last_result_completes_run_witness :
  let s := after singleFrameAnalyzing in
  let f := App.mkFrame 0 0 "frame@0" None App.ANALYZING None in
  App.reachable s /\ App.isProcessing s = true
  /\ App.frames s = [f] /\ App.id f ∈ App.inflight s
  /\ App.progress
       (App.handle (App.AnalysisSettled 0 (GeminiService.Rejected "quota")) s)
     = JS.ofZ 100.
Proof.
  intros s f.
  assert (Hr : App.reachable s).
  { apply after_reachable. vm_compute. eexists. reflexivity. }
  assert (Hp : App.isProcessing s = true) by (vm_compute; reflexivity).
  assert (Hfs : App.frames s = [f]) by (vm_compute; reflexivity).
  assert (Hf : f ∈ App.frames s) by (rewrite Hfs; apply list_elem_of_here).
  assert (Hin : App.id f ∈ App.inflight s).
  { vm_compute. apply list_elem_of_here. }
  assert (Hrest : forall g, g ∈ App.frames s -> g <> f -> App.isDone g = true).
  { intros g Hg Hne. rewrite Hfs in Hg.
    apply list_elem_of_singleton in Hg. contradiction. }
  split; [exact Hr|]. split; [exact Hp|]. split; [exact Hfs|].
  split; [exact Hin|].
  exact (proj1 (proj2 (last_result_completes_run s f
                         (GeminiService.Rejected "quota") Hr Hp Hf Hin Hrest))).
Defined.


Lemma stop_available_while_processing_witness :
  App.reachable (after twoCaptured)
  /\ App.isProcessing (after twoCaptured) = true
  /\ App.enabled App.ClickStop (after twoCaptured) = true.
Proof.
  assert (Hr : App.reachable (after twoCaptured)).
  { apply after_reachable. vm_compute. eexists. reflexivity. }
  assert (Hp : App.isProcessing (after twoCaptured) = true)
    by (vm_compute; reflexivity).
  split; [exact Hr|]. split; [exact Hp|].
  exact (proj1 (stop_available_while_processing (after twoCaptured) Hr Hp)).
Defined.

Lemma capture_loop_locals_witness :
  App.reachable (after twoCaptured)
  /\ App.interval (App.config (after twoCaptured)) <> 0.
Proof.
  assert (Hr : App.reachable (after twoCaptured)).
  { apply after_reachable. vm_compute. eexists. reflexivity. }
  split; [exact Hr|].
  exact (proj1 (capture_loop_locals (after twoCaptured) Hr)).
Defined.

Lemma progress_never_nan_or_negative_witness :
  App.reachable (after shortClipCaptured)
  /\ match App.progress (after shortClipCaptured) with
     | JS.Num q => (0 <= q)%Q
     | JS.PosInf => True
     | JS.NegInf | JS.NaN => False
     end.
Proof.
  assert (Hr : App.reachable (after shortClipCaptured)).
  { apply after_reachable. vm_compute. eexists. reflexivity. }
  split; [exact Hr|].
  exact (progress_never_nan_or_negative (after shortClipCaptured) Hr).
Defined.

(** ** Results that arrive for a cleared frame *)

Section StaleResults.

Import App.

#[local] Arguments updateFrame : simpl never.

Lemma handle_nextId e s : (nextId s <= nextId (handle e s))%nat.
Proof.
  destruct e; cbn [handle].
  - unfold handleFileSelected. by rewrite commit_nextId.
  - unfold reset, abortCurrent. rewrite commit_nextId.
    by destruct (abortControllerRef _).
  - unfold startAnalysis. destruct (videoSrc s); [|done].
    rewrite commit_nextId. by destruct ctx.
  - by destruct (stopAnalysis_captures s) as (_ & -> & _).
  - done.
  - unfold metadataLoaded. by destruct (captures s !! task) as [[]|].
  - destruct (captures s !! task) as [[|c d i total cnt t|]|] eqn:Htask.
    2: { destruct (seeked_resumes task dataUrl s _ _ _ _ _ _ Htask)
           as (_ & -> & _). lia. }
    all: unfold seeked; by rewrite Htask.
  - unfold timerFired. destruct (timer s); [|done].
    unfold processFrameBegin. by rewrite commit_nextId.
  - unfold processFrameSettle. by rewrite commit_nextId.
Qed.

(** An identifier below the counter that no frame has is never given to
    a frame later. *)
Lemma run_keeps_id_unused trace : forall s s' fid,
  run trace s = Some s' ->
  (fid < nextId s)%nat -> (forall f, f ∈ frames s -> id f <> fid) ->
  (fid < nextId s')%nat /\ forall f, f ∈ frames s' -> id f <> fid.
Proof.
  induction trace as [|e trace IH]; cbn; intros s s' fid Hrun Hlt Hno.
  - by injection Hrun as <-.
  - unfold step in Hrun. destruct (enabled e s); [|done].
    apply (IH _ _ _ Hrun).
    + pose proof (handle_nextId e s). lia.
    + destruct (handle_frames e s) as [e|e|e t url|e tf Ht|fid' r].
      * intros f Hf. by apply elem_of_nil in Hf.
      * done.
      * intros f [Hf | ->%list_elem_of_singleton]%elem_of_app; [auto|].
        cbn. lia.
      * intros f' (f & Hf & ->)%elem_of_updateFrame.
        destruct (id f =? id tf)%nat; cbn; auto.
      * intros f' (f & Hf & ->)%elem_of_updateFrame.
        destruct (id f =? fid')%nat; rewrite ?applyResult_id; auto.
Qed.

Lemma updateFrame_no_match fid g fs :
  (forall f, f ∈ fs -> id f <> fid) -> updateFrame fid g fs = fs.
Proof.
  intros Hno. unfold updateFrame. rewrite <- (list_fmap_id fs) at 2.
  apply list_fmap_ext. intros k f Hf. cbn.
  apply list_elem_of_lookup_2 in Hf.
  destruct (Nat.eqb_spec (id f) fid) as [Heq|]; [by apply Hno in Heq | done].
Qed.

End StaleResults.

(** X17. A result never leaks into a later run: once the frame of a call
    in flight has been cleared from the list, no frame of any later list
    has its identifier, so when the call settles, however late, no frame
    changes. *)
Theorem stale_result_never_applies (s s' : App.State)
    (trace : list App.Event) (fid : nat) (r : GeminiService.PromptResult)
    (Hs : App.reachable s) (Hin : fid ∈ App.inflight s)
    (Hgone : forall f, f ∈ App.frames s -> App.id f <> fid)
    (Hrun : App.run trace s = Some s') :
  (forall f, f ∈ App.frames s' -> App.id f <> fid)
  /\ App.frames (App.handle (App.AnalysisSettled fid r) s') = App.frames s'.
Proof.
  destruct (reachable_Inv s Hs) as [[_ _ Hfresh _ _ _ _] _].
  destruct (run_keeps_id_unused trace s s' fid Hrun (Hfresh fid Hin) Hgone)
    as [_ Hno].
  split; [done|]. cbn [App.handle].
  rewrite processFrameSettle_frames. by apply updateFrame_no_match.
Qed.

Lemma stale_result_never_applies_witness :
  let s := after restarted in
  let later := [App.MetadataLoaded 1 (JS.Num 10); App.Seeked 1 "frame@0"] in
  App.reachable s /\ 0%nat ∈ App.inflight s /\ App.frames s = []
  /\ exists s',
       App.run later s = Some s'
       /\ App.frames
            (App.handle
               (App.AnalysisSettled 0 (GeminiService.Resolved "late")) s')
          = App.frames s'.
Proof.
  intros s later.
  assert (Hr : App.reachable s).
  { apply after_reachable. vm_compute. eexists. reflexivity. }
  assert (Hin : 0%nat ∈ App.inflight s).
  { vm_compute. apply list_elem_of_here. }
  assert (Hfs : App.frames s = []) by (vm_compute; reflexivity).
  assert (Hgone : forall f, f ∈ App.frames s -> App.id f <> 0%nat).
  { intros f Hf. rewrite Hfs in Hf. apply elem_of_nil in Hf. destruct Hf. }
  split; [exact Hr|]. split; [exact Hin|]. split; [exact Hfs|].
  exists (default App.init (App.run later s)).
  assert (Hrun : App.run later s = Some (default App.init (App.run later s)))
    by (vm_compute; reflexivity).
  split; [exact Hrun|].
  exact (proj2 (stale_result_never_applies s _ later 0
                  (GeminiService.Resolved "late") Hr Hin Hgone Hrun)).
Defined.
